(** * validate.js: a shallow embedding of the rule registry and of [validate]

    The module under study (src/validate.js) is a table of eight predicates
    over JavaScript values together with an aggregator that runs the rules
    named by an options object.  The predicates are dynamically typed and
    lean on the host language: [typeof], [===], truthiness, [parseFloat],
    [isNaN], [isFinite], [String.prototype.match] and underscore's
    [_.isEmpty] and [_.each].  The first part of this file models that
    host fragment (ECMAScript 5.1 numbering is used in the comments); the
    second part transcribes the source functions; the third part states and
    proves the properties of the specification. *)

From Stdlib Require Import String Ascii List Bool Arith ZArith QArith Qround Qabs Lia.
Import ListNotations.

Local Open Scope list_scope.
Local Open Scope string_scope.

(** ** Numbers

    A JavaScript number is NaN, an infinity, or a finite double.  Finite
    doubles are represented by the rational they denote.  The code never
    divides and never tells the two zeros apart ([-0 === 0], both are
    falsy, both print as 0), so a single zero is enough. *)

Inductive number : Type :=
| NaN
| Infinite (negative : bool)
| Finite (q : Q).

Definition of_Z (z : Z) : number := Finite (inject_Z z).
Definition of_nat (n : nat) : number := of_Z (Z.of_nat n).

Definition Qltb (a b : Q) : bool :=
  match Qcompare a b with Lt => true | _ => false end.

(** The comparison [x < y] of 11.8.5 on numbers; with a NaN operand the
    result is undefined, which every relational operator turns into
    false. *)
Definition number_lt (x y : number) : bool :=
  match x, y with
  | NaN, _ | _, NaN => false
  | Infinite nx, Infinite ny => nx && negb ny
  | Infinite nx, Finite _ => nx
  | Finite _, Infinite ny => negb ny
  | Finite a, Finite b => Qltb a b
  end.

(** [===] on numbers (11.9.6): NaN differs from everything. *)
Definition number_eq (x y : number) : bool :=
  match x, y with
  | Infinite nx, Infinite ny => Bool.eqb nx ny
  | Finite a, Finite b => Qeq_bool a b
  | _, _ => false
  end.

Definition number_isNaN (x : number) : bool :=
  match x with NaN => true | _ => false end.

Definition number_isFinite (x : number) : bool :=
  match x with Finite _ => true | _ => false end.

(** *** Rounding to binary64

    The value of a numeric literal is the double nearest to its
    mathematical value, ties to even; anything that rounds past the largest
    double becomes an infinity. *)

Definition two_to (e : Z) : Q := Qpower 2 e.

(** floor(log2 q) for q > 0 *)
Definition Qfloor_log2 (q : Q) : Z :=
  let e := (Z.log2 (Qnum q) - Z.log2 (Zpos (Qden q)))%Z in
  if Qle_bool (two_to e) q then e else (e - 1)%Z.

(** nearest integer to q >= 0, ties to even *)
Definition round_half_even (q : Q) : Z :=
  let f := Qfloor q in
  match Qcompare (q - inject_Z f) (1 # 2) with
  | Lt => f
  | Gt => (f + 1)%Z
  | Eq => if Z.even f then f else (f + 1)%Z
  end.

Definition binary64 (q : Q) : number :=
  match Qnum q with
  | Z0 => Finite 0
  | _ =>
      let a := Qabs q in
      let ulp := two_to (Z.max (Qfloor_log2 a) (-1022) - 52) in
      let r := inject_Z (round_half_even (a / ulp)) * ulp in
      if Qle_bool (two_to 1024) r then Infinite (Qltb q 0)
      else Finite (Qred (if Qltb q 0 then - r else r))
  end.

(** *** Number to string (9.8.1)

    The shortest decimal [s * 10^(n-k)], with [k] digits, that reads back
    as the same double; among several candidates with [k] digits the one
    nearest to the number. *)

Definition ten_to (e : Z) : Q := Qpower 10 e.

(** floor(log10 q) for q > 0 *)
Definition Qfloor_log10 (q : Q) : Z :=
  let est := (Qfloor_log2 q * 30103 / 100000)%Z in
  if Qle_bool (ten_to (est + 1)) q then (est + 1)%Z
  else if Qle_bool (ten_to est) q then est
  else (est - 1)%Z.

Definition reads_back (q : Q) (s : Z) (scale : Q) : bool :=
  match binary64 (inject_Z s * scale) with
  | Finite r => Qeq_bool r q
  | _ => false
  end.

(** the candidates with [k] digits, nearest first *)
Definition candidates (q : Q) (n0 k : Z) : list Z :=
  let scale := ten_to (n0 - k) in
  let lo := Qfloor (q / scale) in
  let hi := (lo + 1)%Z in
  match Qcompare (q / scale - inject_Z lo) (1 # 2) with
  | Lt => [lo; hi]
  | Gt => [hi; lo]
  | Eq => if Z.even lo then [lo; hi] else [hi; lo]
  end.

Fixpoint shortest_digits (fuel : nat) (q : Q) (n0 k : Z) : Z * Z * Z :=
  let scale := ten_to (n0 - k) in
  let normal (s : Z) : Z * Z * Z :=
    if (s =? 10 ^ k)%Z then (10 ^ (k - 1), n0 + 1, k)%Z else (s, n0, k) in
  match fuel with
  | O => normal (round_half_even (q / scale))
  | S fuel' =>
      match filter (fun s => reads_back q s scale) (candidates q n0 k) with
      | s :: _ => normal s
      | [] => shortest_digits fuel' q n0 (k + 1)
      end
  end.

Fixpoint Pos_digits (fuel : nat) (z : Z) (acc : string) : string :=
  match fuel with
  | O => acc
  | S fuel' =>
      let acc' := String (ascii_of_nat (48 + Z.to_nat (z mod 10))) acc in
      if (z <? 10)%Z then acc' else Pos_digits fuel' (z / 10) acc'
  end.

(** decimal notation of z >= 0 *)
Definition Z_to_string (z : Z) : string :=
  Pos_digits (S (Z.to_nat (Z.log2 z))) z "".

Fixpoint zeros (n : nat) : string :=
  match n with O => "" | S n' => String "0" (zeros n') end.

Definition positive_to_string (q : Q) : string :=
  let '(s, n, k) := shortest_digits 16 (Qred q) (Qfloor_log10 q + 1) 1 in
  let ds := Z_to_string s in
  let exponent :=
    (if (1 <=? n)%Z then "e+" else "e-") ++ Z_to_string (Z.abs (n - 1)) in
  if ((k <=? n) && (n <=? 21))%Z then ds ++ zeros (Z.to_nat (n - k))
  else if ((0 <? n) && (n <=? 21))%Z then
    substring 0 (Z.to_nat n) ds ++ "."
      ++ substring (Z.to_nat n) (Z.to_nat (k - n)) ds
  else if ((-6 <? n) && (n <=? 0))%Z then "0." ++ zeros (Z.to_nat (- n)) ++ ds
  else if (k =? 1)%Z then ds ++ exponent
  else substring 0 1 ds ++ "." ++ substring 1 (Z.to_nat (k - 1)) ds ++ exponent.

Definition number_to_string (x : number) : string :=
  match x with
  | NaN => "NaN"
  | Infinite false => "Infinity"
  | Infinite true => "-Infinity"
  | Finite q =>
      match Qnum q with
      | Z0 => "0"
      | Zpos _ => positive_to_string q
      | Zneg _ => "-" ++ positive_to_string (- q)
      end
  end.

Local Close Scope Q_scope.

(** *** Strings to numbers

    [StrDecimalLiteral] (9.3.1) is read as a longest prefix: [parseFloat]
    keeps whatever follows, the conversion [ToNumber] insists that nothing
    follows. *)

Definition is_digit (c : ascii) : bool :=
  let n := nat_of_ascii c in (48 <=? n)%nat && (n <=? 57)%nat.

Definition hex_value (c : ascii) : option Z :=
  let n := nat_of_ascii c in
  if (48 <=? n)%nat && (n <=? 57)%nat then Some (Z.of_nat n - 48)%Z
  else if (65 <=? n)%nat && (n <=? 70)%nat then Some (Z.of_nat n - 55)%Z
  else if (97 <=? n)%nat && (n <=? 102)%nat then Some (Z.of_nat n - 87)%Z
  else None.

(** StrWhiteSpaceChar, as far as it lies below code unit 256: TAB, LF, VT,
    FF, CR, SP and NBSP *)
Definition is_space (c : ascii) : bool :=
  let n := nat_of_ascii c in
  ((9 <=? n)%nat && (n <=? 13)%nat) || (n =? 32)%nat || (n =? 160)%nat.

Fixpoint span (p : ascii -> bool) (s : string) : string * string :=
  match s with
  | String c s' =>
      if p c then let (a, b) := span p s' in (String c a, b) else ("", s)
  | EmptyString => ("", "")
  end.

Fixpoint rev_string (s acc : string) : string :=
  match s with
  | String c s' => rev_string s' (String c acc)
  | EmptyString => acc
  end.

Definition trim_left (s : string) : string := snd (span is_space s).
Definition trim_right (s : string) : string :=
  rev_string (trim_left (rev_string s "")) "".
Definition trim (s : string) : string := trim_right (trim_left s).

Fixpoint digits_value (acc : Z) (ds : string) : Z :=
  match ds with
  | String c ds' => digits_value (10 * acc + (Z.of_nat (nat_of_ascii c) - 48)) ds'
  | EmptyString => acc
  end.

Fixpoint hex_digits_value (acc : Z) (ds : string) : option Z :=
  match ds with
  | String c ds' =>
      match hex_value c with
      | Some d => hex_digits_value (16 * acc + d) ds'
      | None => None
      end
  | EmptyString => Some acc
  end.

Definition negate (x : number) : number :=
  match x with
  | NaN => NaN
  | Infinite b => Infinite (negb b)
  | Finite q => Finite (- q)
  end.

(** the double denoted by the digits [ds] scaled by [10^e] *)
Definition decimal_value (ds : string) (e : Z) : number :=
  binary64 (inject_Z (digits_value 0 ds) * ten_to e).

(** an optional ExponentPart: its value and what follows it *)
Definition exponent_part (s : string) : Z * string :=
  match s with
  | String c r =>
      if (Ascii.eqb c "e" || Ascii.eqb c "E")%bool then
        let '(sign, r1) :=
          match r with
          | String "+" r' => (1%Z, r')
          | String "-" r' => ((-1)%Z, r')
          | _ => (1%Z, r)
          end in
        let (ds, r2) := span is_digit r1 in
        match ds with
        | EmptyString => (0%Z, s)
        | _ => ((sign * digits_value 0 ds)%Z, r2)
        end
      else (0%Z, s)
  | EmptyString => (0%Z, s)
  end.

(** the longest prefix that is a StrUnsignedDecimalLiteral *)
Definition unsigned_decimal (s : string) : option (number * string) :=
  if prefix "Infinity" s then Some (Infinite false, substring 8 (String.length s - 8) s)
  else
    let (ip, r1) := span is_digit s in
    match r1 with
    | String "." r2 =>
        let (fp, r3) := span is_digit r2 in
        match ip, fp with
        | EmptyString, EmptyString => None
        | _, _ =>
            let (e, r4) := exponent_part r3 in
            Some (decimal_value (ip ++ fp) (e - Z.of_nat (String.length fp)), r4)
        end
    | _ =>
        match ip with
        | EmptyString => None
        | _ => let (e, r2) := exponent_part r1 in Some (decimal_value ip e, r2)
        end
    end.

Definition signed_decimal (s : string) : option (number * string) :=
  match s with
  | String "+" s' => unsigned_decimal s'
  | String "-" s' =>
      match unsigned_decimal s' with
      | Some (x, r) => Some (negate x, r)
      | None => None
      end
  | _ => unsigned_decimal s
  end.

(** [parseFloat] applied to a string (15.1.2.3) *)
Definition parseFloat_string (s : string) : number :=
  match signed_decimal (trim_left s) with
  | Some (x, _) => x
  | None => NaN
  end.

Definition hex_literal (s : string) : option number :=
  match s with
  | String "0" (String x (String d ds)) =>
      if (Ascii.eqb x "x" || Ascii.eqb x "X")%bool then
        match hex_digits_value 0 (String d ds) with
        | Some z => Some (binary64 (inject_Z z))
        | None => None
        end
      else None
  | _ => None
  end.

(** [ToNumber] applied to a string (9.3.1) *)
Definition string_to_number (s : string) : number :=
  let t := trim s in
  match t with
  | EmptyString => of_Z 0
  | _ =>
      match signed_decimal t with
      | Some (x, EmptyString) => x
      | _ =>
          match hex_literal t with
          | Some x => x
          | None => NaN
          end
      end
  end.

(** ** Patterns

    A RegExp object is kept as its source text, its flags and the syntax
    tree of the pattern.  The tree covers the constructs the module's own
    patterns use: characters, classes, sequence, alternation, groups,
    bounded and unbounded repetition and the two line assertions.  Captures
    are not recorded, since the code only reads element 0 of a match. *)

Inductive regex : Type :=
| ReEmpty
| ReChar (c : ascii)
| ReAny
| ReClass (negated : bool) (ranges : list (ascii * ascii))
| ReSeq (r1 r2 : regex)
| ReAlt (r1 r2 : regex)
| ReRepeat (min : nat) (max : option nat) (greedy : bool) (r : regex)
| ReGroup (r : regex)
| ReBol
| ReEol.

Record RegExp : Type := {
  source : string;
  pattern : regex;
  global : bool;
  ignoreCase : bool;
  multiline : bool
}.

Definition flags (rx : RegExp) : string :=
  (if global rx then "g" else "") ++ (if ignoreCase rx then "i" else "")
    ++ (if multiline rx then "m" else "").

(** ** Values

    Objects are references: an object value carries the address of the
    object next to its contents at the time of the call.  A plain object is
    the list of its own enumerable properties in enumeration order. *)

Definition addr := nat.

#[warnings="-register-all"]
Inductive value : Type :=
| VUndefined
| VNull
| VBool (b : bool)
| VNum (n : number)
| VStr (s : string)
| VObject (a : addr) (props : list (string * value))
| VArray (a : addr) (elems : list value)
| VRegExp (a : addr) (rx : RegExp).

(** The [typeof] operator (11.4.3).  No value of this universe is callable,
    so the tag function does not occur. *)
Definition typeof (v : value) : string :=
  match v with
  | VUndefined => "undefined"
  | VNull => "object"
  | VBool _ => "boolean"
  | VNum _ => "number"
  | VStr _ => "string"
  | VObject _ _ | VArray _ _ | VRegExp _ _ => "object"
  end.

(** ToBoolean (9.2) *)
Definition ToBoolean (v : value) : bool :=
  match v with
  | VUndefined | VNull => false
  | VBool b => b
  | VNum NaN => false
  | VNum (Infinite _) => true
  | VNum (Finite q) => negb (Qeq_bool q 0)
  | VStr s => negb (String.eqb s "")
  | VObject _ _ | VArray _ _ | VRegExp _ _ => true
  end.

Definition address (v : value) : option addr :=
  match v with
  | VObject a _ | VArray a _ | VRegExp a _ => Some a
  | _ => None
  end.

(** Strict equality [x === y] (11.9.6): objects are equal when they are the
    same object. *)
Definition strict_eq (x y : value) : bool :=
  match x, y with
  | VUndefined, VUndefined => true
  | VNull, VNull => true
  | VBool a, VBool b => Bool.eqb a b
  | VNum a, VNum b => number_eq a b
  | VStr a, VStr b => String.eqb a b
  | _, _ =>
      match address x, address y with
      | Some a, Some b => Nat.eqb a b
      | _, _ => false
      end
  end.

(** ** Effects

    A call logs messages through [Debug.log] and either returns or throws.
    [M A] is a computation with both effects: the messages logged, in
    order, and the way it completed. *)

Inductive exn : Type := TypeError | SyntaxError.

Inductive completion (A : Type) : Type :=
| Return (a : A)
| Throw (e : exn).
Arguments Return {A} a.
Arguments Throw {A} e.

Definition M (A : Type) : Type := (list string * completion A)%type.

Definition ret {A} (a : A) : M A := ([], Return a).
Definition throw {A} (e : exn) : M A := ([], Throw e).
Definition Debug_log (msg : string) : M unit := ([msg], Return tt).

Definition bind {A B} (m : M A) (k : A -> M B) : M B :=
  match m with
  | (l, Throw e) => (l, Throw e)
  | (l, Return a) => let (l', c) := k a in ((l ++ l')%list, c)
  end.

Notation "x <- m ;; k" := (bind m (fun x => k))
  (at level 61, m at next level, right associativity).
Notation "m ;;; k" := (bind m (fun _ => k))
  (at level 61, right associativity).

(** ** Conversions of values (9.1, 9.3, 9.8)

    A plain object converts through the inherited [toString] to
    "[object Object]", unless an own property of that name, which is not
    callable in this universe, hides it: then neither [toString] nor
    [valueOf] yields a primitive and the conversion throws a TypeError.
    An array converts through [join]. *)

Definition has_key {A} (k : string) (props : list (string * A)) : bool :=
  existsb (fun p => String.eqb (fst p) k) props.

Fixpoint ToString (v : value) : M string :=
  match v with
  | VUndefined => ret "undefined"
  | VNull => ret "null"
  | VBool true => ret "true"
  | VBool false => ret "false"
  | VNum n => ret (number_to_string n)
  | VStr s => ret s
  | VObject _ props =>
      if has_key "toString" props then throw TypeError
      else ret "[object Object]"
  | VArray _ elems =>
      (fix join (first : bool) (l : list value) : M string :=
         match l with
         | [] => ret ""
         | x :: l' =>
             s <- match x with
                  | VUndefined | VNull => ret ""
                  | _ => ToString x
                  end ;;
             r <- join false l' ;;
             ret ((if first then "" else ",") ++ s ++ r)
         end) true elems
  | VRegExp _ rx => ret ("/" ++ source rx ++ "/" ++ flags rx)
  end.

Definition ToNumber (v : value) : M number :=
  match v with
  | VUndefined => ret NaN
  | VNull => ret (of_Z 0)
  | VBool true => ret (of_Z 1)
  | VBool false => ret (of_Z 0)
  | VNum n => ret n
  | VStr s => ret (string_to_number s)
  | VObject _ _ | VArray _ _ | VRegExp _ _ =>
      s <- ToString v ;; ret (string_to_number s)
  end.

(** The global functions [parseFloat], [isNaN] and [isFinite]
    (15.1.2.3 to 15.1.2.5). *)
Definition parseFloat (v : value) : M number :=
  s <- ToString v ;; ret (parseFloat_string s).

Definition isNaN (v : value) : M bool :=
  n <- ToNumber v ;; ret (number_isNaN n).

Definition isFinite (v : value) : M bool :=
  n <- ToNumber v ;; ret (number_isFinite n).

(** ** Matching (15.10.2)

    A backtracking matcher in continuation-passing style, following the
    notation of the language definition: a matcher takes the current
    position and a continuation and answers with the end position of the
    first successful way through the pattern, if any.  A position is the
    character just before it, if any, and the text from it on. *)

Definition position : Type := (option ascii * string)%type.

Definition is_line_terminator (c : ascii) : bool :=
  let n := nat_of_ascii c in ((n =? 10) || (n =? 13))%nat.

(** Canonicalize (15.10.2.8), for code units below 256.  The letters whose
    upper case lies above 255 are kept: no other code unit below 256 shares
    their upper case. *)
Definition canonicalize (icase : bool) (c : ascii) : ascii :=
  if icase then
    let n := nat_of_ascii c in
    if (((97 <=? n) && (n <=? 122))
        || ((224 <=? n) && (n <=? 254) && negb (n =? 247)))%nat
    then ascii_of_nat (n - 32)
    else c
  else c.

Definition same_char (icase : bool) (a b : ascii) : bool :=
  Ascii.eqb (canonicalize icase a) (canonicalize icase b).

Definition class_members (ranges : list (ascii * ascii)) : list ascii :=
  flat_map
    (fun r => map ascii_of_nat
                (seq (nat_of_ascii (fst r))
                     (S (nat_of_ascii (snd r)) - nat_of_ascii (fst r))))
    ranges.

Definition in_class (icase negated : bool) (ranges : list (ascii * ascii))
    (c : ascii) : bool :=
  xorb negated (existsb (fun a => same_char icase a c) (class_members ranges)).

Section Matcher.
Variables icase mline : bool.

Definition advance (p : position) (accept : ascii -> bool)
    (k : position -> option position) : option position :=
  match snd p with
  | String c rest => if accept c then k (Some c, rest) else None
  | EmptyString => None
  end.

Definition at_line_start (p : position) : bool :=
  match fst p with
  | None => true
  | Some c => mline && is_line_terminator c
  end.

Definition at_line_end (p : position) : bool :=
  match snd p with
  | EmptyString => true
  | String c _ => mline && is_line_terminator c
  end.

Definition remaining (p : position) : nat := String.length (snd p).

(** RepeatMatcher (15.10.2.5) for an atom with matcher [m].  The
    iterations past the minimum must each consume something, so their
    number is bounded by the text that remains: [fuel] is that bound. *)
Fixpoint more (m : position -> (position -> option position) -> option position)
    (greedy : bool) (k : position -> option position)
    (fuel : nat) (left : option nat) (p : position) : option position :=
  match fuel with
  | O => None
  | S fuel' =>
      let again :=
        match left with
        | Some O => None
        | _ =>
            m p (fun p' =>
                   if (remaining p' <? remaining p)%nat
                   then more m greedy k fuel' (option_map pred left) p'
                   else None)
        end in
      if greedy then
        match again with Some e => Some e | None => k p end
      else
        match k p with Some e => Some e | None => again end
  end.

Fixpoint required (m : position -> (position -> option position) -> option position)
    (n : nat) (k : position -> option position) (p : position)
    : option position :=
  match n with
  | O => k p
  | S n' => m p (required m n' k)
  end.

Fixpoint run (r : regex) (p : position) (k : position -> option position)
    {struct r} : option position :=
  match r with
  | ReEmpty => k p
  | ReChar c => advance p (same_char icase c) k
  | ReAny => advance p (fun c => negb (is_line_terminator c)) k
  | ReClass negated ranges => advance p (in_class icase negated ranges) k
  | ReSeq r1 r2 => run r1 p (fun p' => run r2 p' k)
  | ReAlt r1 r2 =>
      match run r1 p k with
      | Some e => Some e
      | None => run r2 p k
      end
  | ReGroup r1 => run r1 p k
  | ReBol => if at_line_start p then k p else None
  | ReEol => if at_line_end p then k p else None
  | ReRepeat min max greedy r1 =>
      required (run r1) min
        (fun p' =>
           more (run r1) greedy k (S (remaining p'))
             (option_map (fun n => n - min) max) p')
        p
  end.

(** the leftmost position from which the pattern matches, with the end
    of the match *)
Fixpoint search (r : regex) (prev : option ascii) (s : string)
    : option (string * position) :=
  match run r (prev, s) Some with
  | Some e => Some (s, e)
  | None =>
      match s with
      | String c s' => search r (Some c) s'
      | EmptyString => None
      end
  end.
End Matcher.

Definition matched (start : string) (e : position) : string :=
  substring 0 (String.length start - remaining e) start.

Definition RegExp_search (rx : RegExp) : option ascii -> string
    -> option (string * position) :=
  search (ignoreCase rx) (multiline rx) (pattern rx).

(** all successive matches of a global pattern; an empty match moves the
    start one character on *)
Fixpoint match_all (fuel : nat) (rx : RegExp) (prev : option ascii)
    (s : string) : list string :=
  match fuel with
  | O => []
  | S fuel' =>
      match RegExp_search rx prev s with
      | None => []
      | Some (start, e) =>
          matched start e ::
            (if (remaining e <? String.length start)%nat
             then match_all fuel' rx (fst e) (snd e)
             else match snd e with
                  | String c rest => match_all fuel' rx (Some c) rest
                  | EmptyString => []
                  end)
      end
  end.

(** [s.match(rx)] for a RegExp object (15.5.4.10): [None] stands for null,
    [Some l] for an array whose element 0 is the first matched substring.
    Without the global flag the array of the language also holds the
    captures, from element 1 on; they are left out. *)
Definition String_match (s : string) (rx : RegExp) : option (list string) :=
  if global rx then
    match match_all (S (S (String.length s))) rx None s with
    | [] => None
    | l => Some l
    end
  else
    match RegExp_search rx None s with
    | None => None
    | Some (start, e) => Some [matched start e]
    end.

(** ** The host

    Three things the module uses are neither in its source nor fixed by
    the language: the parser behind [new RegExp(text)], what the members
    of [Object.prototype] do when they are called as plain functions, and
    the page object [Sequencer.$container].  They are the fields of a
    [Host]; everything proved below holds for every host. *)

(** What [confirmEmail] sees of the result of [find]: a falsy value, or an
    object whose [val()] returns the current value of the field. *)
Inductive lookup : Type :=
| NoField
| Field (current : value).

Class Host : Type := {
  (** [new RegExp(text)]; [None] when the text is not a pattern
      (SyntaxError) *)
  RegExp_new : string -> option RegExp;
  (** [Object.prototype[name](input, ruleVal)] *)
  Object_prototype_call : string -> value -> value -> completion value;
  (** [Sequencer.$container.find(selector)] *)
  Sequencer_find : value -> lookup
}.

(** the function-valued properties of [Object.prototype] (15.2.4) *)
Definition Object_prototype_functions : list string :=
  ["constructor"; "toString"; "toLocaleString"; "valueOf"; "hasOwnProperty";
   "isPrototypeOf"; "propertyIsEnumerable"].

(** [input.match(regex)].  Only a string has the method in this universe;
    on anything else the call throws.  An argument that is not a RegExp
    object goes through [new RegExp] (15.5.4.10, 15.10.4.1). *)
Definition String_prototype_match `{Host} (input regex : value)
    : M (option (list string)) :=
  match input with
  | VStr s =>
      rx <- match regex with
            | VRegExp _ rx => ret rx
            | _ =>
                p <- match regex with
                     | VUndefined => ret ""
                     | _ => ToString regex
                     end ;;
                match RegExp_new p with
                | Some rx => ret rx
                | None => throw SyntaxError
                end
            end ;;
      ret (String_match s rx)
  | _ => throw TypeError
  end.

(** [x < y] (11.8.5): on two strings the order of the code units, on
    anything else the order of the numbers. *)
Definition ToPrimitive (v : value) : M value :=
  match v with
  | VObject _ _ | VArray _ _ | VRegExp _ _ => s <- ToString v ;; ret (VStr s)
  | _ => ret v
  end.

Definition less_than (x y : value) : M bool :=
  px <- ToPrimitive x ;;
  py <- ToPrimitive y ;;
  match px, py with
  | VStr a, VStr b => ret (String.ltb a b)
  | _, _ =>
      nx <- ToNumber px ;;
      ny <- ToNumber py ;;
      ret (number_lt nx ny)
  end.

(** [x > y] is [y < x] with the operands still converted left to right *)
Definition greater_than (x y : value) : M bool :=
  px <- ToPrimitive x ;;
  py <- ToPrimitive y ;;
  match px, py with
  | VStr a, VStr b => ret (String.ltb b a)
  | _, _ =>
      nx <- ToNumber px ;;
      ny <- ToNumber py ;;
      ret (number_lt ny nx)
  end.

(** the property [length] of a value that is neither undefined nor null *)
Definition get_length (v : value) : value :=
  match v with
  | VStr s => VNum (of_nat (String.length s))
  | VArray _ elems => VNum (of_nat (List.length elems))
  | VObject _ props =>
      match find (fun p => String.eqb (fst p) "length") props with
      | Some p => snd p
      | None => VUndefined
      end
  | _ => VUndefined
  end.

(** ** underscore

    [_.isEmpty]: a string or an array is empty when its length is 0, any
    other value when it has no own enumerable property.  A RegExp object
    has none (its [lastIndex] is not enumerable). *)
Definition isEmpty (obj : value) : bool :=
  match obj with
  | VUndefined | VNull => true
  | VStr s => String.eqb s ""
  | VArray _ elems => match elems with [] => true | _ => false end
  | VObject _ props => match props with [] => true | _ => false end
  | VRegExp _ _ => true
  | VBool _ | VNum _ => true
  end.

(** [_.each(obj, iterator)] on a plain object, with the iterator
    threading what it mutates.  underscore first asks whether the object
    is array-like, that is, whether its [length] is a number between 0
    and MAX_ARRAY_INDEX.  If it is, the indices below [length] are walked
    and the keys are never looked at; otherwise the own enumerable
    properties are walked in their order. *)
Definition MAX_ARRAY_INDEX : Z := 2 ^ 53 - 1.

(** [obj[key]] on the properties of a plain object *)
Definition get_property (key : string) (obj : list (string * value)) : value :=
  match find (fun p => fst p =? key) obj with
  | Some p => snd p
  | None => VUndefined
  end.

(** for an array-like object, the number of indices below its [length] *)
Definition isArrayLike (obj : list (string * value)) : option nat :=
  match get_property "length" obj with
  | VNum (Finite q) =>
      if Qle_bool 0 q && Qle_bool q (inject_Z MAX_ARRAY_INDEX)
      then Some (Z.to_nat (Qceiling q))
      else None
  | _ => None
  end.

(** An index is handed on as its property key, its decimal text: the
    iterator of [validate] uses it as a key and in a message, which both
    convert it to that text, and never gets to store it, since no index
    names a function of the registry. *)
Definition index_key (i : nat) : string := Z_to_string (Z.of_nat i).

(** [for (i = 0; i < length; i++) iterator(obj[i], i, obj)], with
    [count] indices left *)
Fixpoint each_index {S : Type} (obj : list (string * value))
    (iterator : value -> string -> S -> M S) (count i : nat) (s : S) : M S :=
  match count with
  | O => ret s
  | Datatypes.S count' =>
      s' <- iterator (get_property (index_key i) obj) (index_key i) s ;;
      each_index obj iterator count' (Datatypes.S i) s'
  end.

(** the walk over the keys *)
Fixpoint each_key {S : Type} (obj : list (string * value))
    (iterator : value -> string -> S -> M S) (s : S) : M S :=
  match obj with
  | [] => ret s
  | (key, val) :: rest => s' <- iterator val key s ;; each_key rest iterator s'
  end.

Definition each {S : Type} (obj : list (string * value))
    (iterator : value -> string -> S -> M S) (s : S) : M S :=
  match isArrayLike obj with
  | Some count => each_index obj iterator count 0 s
  | None => each_key obj iterator s
  end.

(** * The module (src/validate.js) *)

(** ** CONSTANTS *)

Definition MAX_SHORT_TEXT_LENGTH : Z := 128.
Definition MAX_TEXTAREA_LENGTH : Z := 20000.

(** abbreviations for writing pattern trees *)
Definition rng (lo hi : string) : ascii * ascii :=
  match lo, hi with
  | String a _, String b _ => (a, b)
  | _, _ => (zero, zero)
  end.
Definition chr (c : string) : ascii * ascii := rng c c.
Definition set (ranges : list (ascii * ascii)) : regex := ReClass false ranges.
Definition plus (r : regex) : regex := ReRepeat 1 None true r.
Definition star (r : regex) : regex := ReRepeat 0 None true r.
Definition opt (r : regex) : regex := ReRepeat 0 (Some 1) true r.

Fixpoint lit (s : string) : regex :=
  match s with
  | EmptyString => ReEmpty
  | String c EmptyString => ReChar c
  | String c s' => ReSeq (ReChar c) (lit s')
  end.

Fixpoint seqs (rs : list regex) : regex :=
  match rs with
  | [] => ReEmpty
  | [r] => r
  | r :: rs' => ReSeq r (seqs rs')
  end.

Fixpoint alts (rs : list regex) : regex :=
  match rs with
  | [] => ReEmpty
  | [r] => r
  | r :: rs' => ReAlt r (alts rs')
  end.

Definition alnum : list (ascii * ascii) :=
  [rng "a" "z"; rng "A" "Z"; rng "0" "9"].
Definition lower_digit : list (ascii * ascii) := [rng "a" "z"; rng "0" "9"].

Definition EMAIL_REGEX : RegExp := {|
  source :=
    "^([a-zA-Z0-9_\-\.\+])+\@(([a-zA-Z0-9\-])+\.)+([a-zA-Z0-9]{2,5})";
  pattern :=
    seqs [ ReBol;
           plus (ReGroup (set (alnum ++ [chr "_"; chr "-"; chr "."; chr "+"])%list));
           lit "@";
           plus (ReGroup (seqs [plus (ReGroup (set (alnum ++ [chr "-"])%list));
                                lit "."]));
           ReGroup (ReRepeat 2 (Some 5) true (set alnum)) ];
  global := false;
  ignoreCase := true;
  multiline := false
|}.

(** the query part [\?[a-z0-9+_\-\.%=&amp;]*] occurs twice *)
Definition url_query : regex :=
  seqs [ lit "?";
         star (set (lower_digit ++
                      [chr "+"; chr "_"; chr "-"; chr "."; chr "%"; chr "=";
                       chr "&"; chr "a"; chr "m"; chr "p"; chr ";"])%list) ].

Definition URL_REGEX : RegExp := {|
  source :=
    "(([a-z]+:\/\/)?(([a-z0-9\-]+\.)+([a-z]{2,}|aero|arpa|biz|com|coop|edu|gov|info|int|jobs|mil|museum|name|nato|net|org|pro|travel|local|internal))(:[0-9]{1,5})?(\?[a-z0-9+_\-\.%=&amp;]*)?(\/[a-z0-9_\-\.~%\?\&\=]+)*(\/([a-z0-9_\-\.]*)(\?[a-z0-9+_\-\.%=&amp;]*)?)?(#[a-zA-Z0-9!$&'()*+.=-_~:@/?]*)?)";
  pattern :=
    ReGroup (seqs [
      opt (ReGroup (seqs [plus (set [rng "a" "z"]); lit "://"]));
      ReGroup (seqs [
        plus (ReGroup (seqs [plus (set (lower_digit ++ [chr "-"])%list);
                             lit "."]));
        ReGroup (alts (ReRepeat 2 None true (set [rng "a" "z"]) ::
                       map lit ["aero"; "arpa"; "biz"; "com"; "coop"; "edu";
                                "gov"; "info"; "int"; "jobs"; "mil"; "museum";
                                "name"; "nato"; "net"; "org"; "pro"; "travel";
                                "local"; "internal"])) ]);
      opt (ReGroup (seqs [lit ":"; ReRepeat 1 (Some 5) true (set [rng "0" "9"])]));
      opt (ReGroup url_query);
      star (ReGroup (seqs [
        lit "/";
        plus (set (lower_digit ++
                     [chr "_"; chr "-"; chr "."; chr "~"; chr "%"; chr "?";
                      chr "&"; chr "="])%list) ]));
      opt (ReGroup (seqs [
        lit "/";
        ReGroup (star (set (lower_digit ++ [chr "_"; chr "-"; chr "."])%list));
        opt (ReGroup url_query) ]));
      opt (ReGroup (seqs [
        lit "#";
        star (set (alnum ++
                     [chr "!"; chr "$"; chr "&"; chr "'"; chr "("; chr ")";
                      chr "*"; chr "+"; chr "."; rng "=" "_"; chr "~";
                      chr ":"; chr "@"; chr "/"; chr "?"])%list) ])) ]);
  global := true;
  ignoreCase := true;
  multiline := false
|}.

(** ** validators *)

Section Validators.
Context `{Host}.

(** Returns false if input is non-existent, empty string, or empty
    array/object.  The last test can never hold: [typeof] knows no tag
    array. *)
Definition isRequired (input validationRequired : value) : bool :=
  if strict_eq validationRequired (VBool false) then true
  else if (typeof input =? "undefined") || strict_eq input VNull
          || strict_eq input (VStr "") then false
  else if (typeof input =? "object") && isEmpty input then false
  else if (typeof input =? "array")
          && strict_eq (get_length input) (VNum (of_Z 0)) then false
  else true.

(** [!isNaN(parseFloat(input)) && isFinite(input)] *)
Definition isNumeric (input : value) : M bool :=
  x <- parseFloat input ;;
  nan <- isNaN (VNum x) ;;
  if negb nan then isFinite input else ret false.

Definition hasMinLength (input min : value) : M bool :=
  if negb (typeof input =? "string") then
    Debug_log "String validator cannot parse a non-string" ;;;
    ret false
  else
    let inputLength := get_length input in
    too_short <- (if ToBoolean min then less_than inputLength min
                  else ret false) ;;
    if too_short then ret false else ret true.

Definition hasMaxLength (input max : value) : M bool :=
  if negb (typeof input =? "string") then
    Debug_log "String validator cannot parse a non-string" ;;;
    ret false
  else
    let inputLength := get_length input in
    too_long <- (if ToBoolean max then greater_than inputLength max
                 else ret false) ;;
    if too_long then ret false else ret true.

(** element 0 of the result of [match] *)
Definition first_match (matches : list string) : value :=
  match matches with
  | m :: _ => VStr m
  | [] => VUndefined
  end.

Definition matchesRegularExpression (input regex : value) : M bool :=
  matches <- String_prototype_match input regex ;;
  match matches with
  | Some l => if strict_eq (first_match l) input then ret true else ret false
  | None => ret false
  end.

(** the two pattern objects of CONSTANTS live at the addresses 0 and 1 *)
Definition isEmail (input : value) : M bool :=
  matchesRegularExpression input (VRegExp 0 EMAIL_REGEX).

Definition confirmEmail (input selector : value) : M bool :=
  match Sequencer_find selector with
  | NoField =>
      text <- ToString selector ;;
      Debug_log ("Validator: No original email in " ++ text
                 ++ " to compare against. Responding with 'valid' to handle.") ;;;
      ret true
  | Field originalEmail =>
      if strict_eq input originalEmail then ret true else ret false
  end.

Definition isUrl (input : value) : M bool :=
  matchesRegularExpression input (VRegExp 1 URL_REGEX).

(** an entry of the registry, called as [f(input, ruleVal)] *)
Definition validator : Type := value -> value -> M value.

Definition returning (f : value -> value -> M bool) : validator :=
  fun input ruleVal => b <- f input ruleVal ;; ret (VBool b).

(** the object [validators]: its own properties, in source order; a
    function declared with one parameter ignores the second argument *)
Definition validators : list (string * validator) :=
  [ ("isRequired", fun input ruleVal => ret (VBool (isRequired input ruleVal)));
    ("isNumeric", returning (fun input _ => isNumeric input));
    ("hasMinLength", returning hasMinLength);
    ("hasMaxLength", returning hasMaxLength);
    ("matchesRegularExpression", returning matchesRegularExpression);
    ("isEmail", returning (fun input _ => isEmail input));
    ("confirmEmail", returning confirmEmail);
    ("isUrl", returning (fun input _ => isUrl input)) ].

(** [validators[ruleType]]: an own property, else a function inherited
    from [Object.prototype], else nothing callable *)
Definition validators_get (ruleType : string) : option validator :=
  match find (fun p => fst p =? ruleType) validators with
  | Some p => Some (snd p)
  | None =>
      if existsb (String.eqb ruleType) Object_prototype_functions then
        Some (fun input ruleVal =>
                ([], Object_prototype_call ruleType input ruleVal))
      else None
  end.

(** ** Validator.validate *)

Inductive result : Type :=
| Boolean (b : bool)
| Failures (failures : list string).

(** the body of the iterator; [thisValidator(input, ruleVal)] throws a
    TypeError when [thisValidator] is not a function *)
Definition check_rule (input ruleVal : value) (ruleType : string)
    (failures : list string) : M (list string) :=
  let thisValidator := validators_get ruleType in
  match thisValidator with
  | Some _ => ret tt
  | None => Debug_log ("Type: " ++ ruleType ++ " not recognized")
  end ;;;
  outcome <- match thisValidator with
             | Some f => f input ruleVal
             | None => throw TypeError
             end ;;
  if strict_eq outcome (VBool false) then ret (failures ++ [ruleType])%list
  else ret failures.

Definition validate (input : value) (options : list (string * value))
    (returnSpecifics : value) : M result :=
  failures <- each options (check_rule input) [] ;;
  if (0 <? List.length failures)%nat then
    if strict_eq returnSpecifics (VBool true) then ret (Failures failures)
    else ret (Boolean false)
  else ret (Boolean true).
End Validators.


(** ** A host for the worked examples

    A page with the single field "#ugc_submission_email", holding
    "a@b.com".  Its RegExp constructor knows the empty pattern and the
    patterns made of letters and digits, which stand for themselves; the
    members of [Object.prototype] are taken to return undefined.  It only
    serves to run the module on concrete arguments. *)

Definition is_alnum (c : ascii) : bool :=
  let n := nat_of_ascii c in
  (((48 <=? n) && (n <=? 57)) || ((65 <=? n) && (n <=? 90))
   || ((97 <=? n) && (n <=? 122)))%nat.

Definition example_host : Host := {|
  RegExp_new := fun text =>
    if forallb is_alnum (list_ascii_of_string text) then
      Some {| source := if text =? "" then "(?:)" else text;
              pattern := lit text;
              global := false; ignoreCase := false; multiline := false |}
    else None;
  Object_prototype_call := fun _ _ _ => Return VUndefined;
  Sequencer_find := fun selector =>
    if strict_eq selector (VStr "#ugc_submission_email")
    then Field (VStr "a@b.com") else NoField
|}.

(** The same page behind a lookup that always answers with a collection,
    as the [find] of jQuery does: the collection is empty when nothing
    matches the selector, and [val()] of an empty collection is
    undefined. *)
Definition collection_host : Host := {|
  RegExp_new := @RegExp_new example_host;
  Object_prototype_call := @Object_prototype_call example_host;
  Sequencer_find := fun selector =>
    if strict_eq selector (VStr "#ugc_submission_email")
    then Field (VStr "a@b.com") else Field VUndefined
|}.

(** * Vocabulary of the specification *)

(** The inputs the specification lists as missing for [isRequired]:
    undefined, null, the empty string, an empty mapping and an empty
    sequence. *)
Definition empty_mapping (input : value) : Prop :=
  exists a, input = VObject a [].

Definition empty_sequence (input : value) : Prop :=
  exists a, input = VArray a [].

Definition listed_as_missing (input : value) : Prop :=
  input = VUndefined \/ input = VNull \/ input = VStr ""
  \/ empty_mapping input \/ empty_sequence input.

(** An object that is neither a mapping nor a sequence and shows no own
    property to an enumeration; in this universe, a RegExp object. *)
Definition bare_object (input : value) : Prop :=
  exists a rx, input = VRegExp a rx.

(** the inputs the code counts as missing *)
Definition missing (input : value) : Prop :=
  listed_as_missing input \/ bare_object input.

(** the messages handed to [Debug.log] *)
Definition non_string_diagnostic : string :=
  "String validator cannot parse a non-string".

Definition no_original_email (text : string) : string :=
  "Validator: No original email in " ++ text
    ++ " to compare against. Responding with 'valid' to handle.".

Definition not_recognized (ruleType : string) : string :=
  "Type: " ++ ruleType ++ " not recognized".

(** the pattern [/abc/] *)
Definition abc_pattern : RegExp := {|
  source := "abc"; pattern := lit "abc";
  global := false; ignoreCase := false; multiline := false
|}.

(** a matcher that uses its continuation only through its answers *)
Definition extensional
    (m : position -> (position -> option position) -> option position) : Prop :=
  forall p k k', (forall q, k q = k' q) -> m p k = m p k'.

(** the names of the registry *)
Definition rule_names : list string :=
  ["isRequired"; "isNumeric"; "hasMinLength"; "hasMaxLength";
   "matchesRegularExpression"; "isEmail"; "isUrl"; "confirmEmail"].

(** the call [thisValidator(input, ruleVal)] made for one pair of the
    options *)
Definition invoke `{Host} (input : value) (rule : string * value) : M value :=
  match validators_get (fst rule) with
  | Some f => f input (snd rule)
  | None => throw TypeError
  end.

(** the pair is one whose call returns exactly false *)
Definition fails `{Host} (input : value) (rule : string * value) : bool :=
  match snd (invoke input rule) with
  | Return v => strict_eq v (VBool false)
  | Throw _ => false
  end.

Definition failed_rules `{Host} (input : value)
    (options : list (string * value)) : list string :=
  map fst (filter (fails input) options).

(** ** Vocabulary of the further properties *)

(** The positions a pattern can lead to from a position.  A repetition
    takes one more turn when a turn is still required or the upper bound
    is not used up. *)
Inductive matches (icase mline : bool) : regex -> position -> position -> Prop :=
| matches_empty p : matches icase mline ReEmpty p p
| matches_char c prev x rest :
    same_char icase c x = true ->
    matches icase mline (ReChar c) (prev, String x rest) (Some x, rest)
| matches_any prev x rest :
    is_line_terminator x = false ->
    matches icase mline ReAny (prev, String x rest) (Some x, rest)
| matches_class negated ranges prev x rest :
    in_class icase negated ranges x = true ->
    matches icase mline (ReClass negated ranges) (prev, String x rest)
      (Some x, rest)
| matches_seq r1 r2 p q s :
    matches icase mline r1 p q -> matches icase mline r2 q s ->
    matches icase mline (ReSeq r1 r2) p s
| matches_alt_l r1 r2 p q :
    matches icase mline r1 p q -> matches icase mline (ReAlt r1 r2) p q
| matches_alt_r r1 r2 p q :
    matches icase mline r2 p q -> matches icase mline (ReAlt r1 r2) p q
| matches_group r p q :
    matches icase mline r p q -> matches icase mline (ReGroup r) p q
| matches_bol p :
    at_line_start mline p = true -> matches icase mline ReBol p p
| matches_eol p :
    at_line_end mline p = true -> matches icase mline ReEol p p
| matches_repeat_done max greedy r p :
    matches icase mline (ReRepeat 0 max greedy r) p p
| matches_repeat_more min max greedy r p q s :
    0 < min \/ max <> Some 0 ->
    matches icase mline r p q ->
    matches icase mline (ReRepeat (pred min) (option_map pred max) greedy r) q s ->
    matches icase mline (ReRepeat min max greedy r) p s.

(** a matcher finds only what the pattern [r] allows *)
Definition sound (icase mline : bool)
    (m : position -> (position -> option position) -> option position)
    (r : regex) : Prop :=
  forall p k e, m p k = Some e ->
    exists q, matches icase mline r p q /\ k q = Some e.

(** every code unit of the universe *)
Definition all_chars : list ascii := map ascii_of_nat (seq 0 256).

(** every character an atom of the pattern can consume satisfies [ok] *)
Fixpoint atoms_within (icase : bool) (ok : ascii -> bool) (r : regex) : bool :=
  match r with
  | ReEmpty | ReBol | ReEol => true
  | ReChar c => forallb (fun x => implb (same_char icase c x) (ok x)) all_chars
  | ReAny => forallb (fun x => implb (negb (is_line_terminator x)) (ok x)) all_chars
  | ReClass negated ranges =>
      forallb (fun x => implb (in_class icase negated ranges x) (ok x)) all_chars
  | ReSeq r1 r2 | ReAlt r1 r2 => atoms_within icase ok r1 && atoms_within icase ok r2
  | ReRepeat _ _ _ r1 | ReGroup r1 => atoms_within icase ok r1
  end.

(** a number of characters every match of the pattern consumes *)
Fixpoint min_length (r : regex) : nat :=
  match r with
  | ReEmpty | ReBol | ReEol => 0
  | ReChar _ | ReAny | ReClass _ _ => 1
  | ReSeq r1 r2 => min_length r1 + min_length r2
  | ReAlt r1 r2 => Nat.min (min_length r1) (min_length r2)
  | ReRepeat min _ _ r1 => min * min_length r1
  | ReGroup r1 => min_length r1
  end.

(** every match of the pattern consumes the character [c] somewhere *)
Fixpoint must_contain (icase : bool) (c : ascii) (r : regex) : bool :=
  match r with
  | ReChar c' =>
      forallb (fun x => implb (same_char icase c' x) (Ascii.eqb x c)) all_chars
  | ReSeq r1 r2 => must_contain icase c r1 || must_contain icase c r2
  | ReAlt r1 r2 => must_contain icase c r1 && must_contain icase c r2
  | ReRepeat min _ _ r1 => (0 <? min)%nat && must_contain icase c r1
  | ReGroup r1 => must_contain icase c r1
  | _ => false
  end.

Definition string_forall (ok : ascii -> bool) (s : string) : bool :=
  forallb ok (list_ascii_of_string s).

Definition contains (c : ascii) (s : string) : Prop :=
  exists a b, s = a ++ String c b.

(** the two halves of EMAIL_REGEX, before and after the at sign *)
Definition email_local : regex :=
  plus (ReGroup (set (alnum ++ [chr "_"; chr "-"; chr "."; chr "+"])%list)).

Definition email_domain : regex :=
  ReSeq (plus (ReGroup (seqs [plus (ReGroup (set (alnum ++ [chr "-"])%list));
                              lit "."])))
        (ReGroup (ReRepeat 2 (Some 5) true (set alnum))).

Definition one_of (chars : string) (c : ascii) : bool :=
  existsb (Ascii.eqb c) (list_ascii_of_string chars).

(** the alphabets of the local part, of the domain and of a URL *)
Definition local_char (c : ascii) : bool :=
  is_alnum c || one_of "_-.+" c.

Definition domain_char (c : ascii) : bool :=
  is_alnum c || one_of "-." c.

Definition url_char (c : ascii) : bool :=
  is_alnum c || one_of "!#$%&'()*+-./:;=>?@[\]^_~" c.

(** a text that starts with a decimal digit *)
Definition leading_digit (s : string) : Prop :=
  exists c r, s = String c r /\ is_digit c = true.

(** the pattern object with its global flag set to [g] *)
Definition with_global (g : bool) (rx : RegExp) : RegExp := {|
  source := source rx; pattern := pattern rx;
  global := g; ignoreCase := ignoreCase rx; multiline := multiline rx
|}.

(** what a result says once the rule names are dropped *)
Definition collapse (r : result) : result :=
  match r with
  | Failures _ => Boolean false
  | Boolean b => Boolean b
  end.

Definition failures_of (r : result) : list string :=
  match r with
  | Failures failures => failures
  | Boolean _ => []
  end.

Definition map_completion {A B} (f : A -> B) (c : completion A) : completion B :=
  match c with
  | Return a => Return (f a)
  | Throw e => Throw e
  end.


(** * Properties *)

(** ** Facts about the host language *)

Lemma strict_eq_false (v : value) :
  strict_eq v (VBool false) = true <-> v = VBool false.
Proof.
  destruct v as [ | | [|] | | | | | ]; simpl; split;
    congruence || discriminate.
Qed.

Lemma strict_eq_true (v : value) :
  strict_eq v (VBool true) = true <-> v = VBool true.
Proof.
  destruct v as [ | | [|] | | | | | ]; simpl; split;
    congruence || discriminate.
Qed.

Lemma typeof_string (v : value) :
  typeof v = "string" <-> exists s, v = VStr s.
Proof.
  split.
  - destruct v; simpl; try discriminate. intros _. now eexists.
  - intros [s ->]. reflexivity.
Qed.

(** [typeof] has six answers, and array is not one of them. *)
Lemma typeof_never_array (v : value) : (typeof v =? "array") = false.
Proof. destruct v; reflexivity. Qed.

Lemma Qltb_inject_Z (a b : Z) : Qltb (inject_Z a) (inject_Z b) = (a <? b)%Z.
Proof.
  unfold Qltb, Qcompare, Z.ltb. simpl. now rewrite !Z.mul_1_r.
Qed.

Lemma Qeq_bool_inject_Z (a : Z) : Qeq_bool (inject_Z a) 0 = (a =? 0)%Z.
Proof.
  destruct a; reflexivity.
Qed.

Lemma ToBoolean_integer (z : Z) :
  ToBoolean (VNum (of_Z z)) = negb (z =? 0)%Z.
Proof. unfold of_Z. simpl. now rewrite Qeq_bool_inject_Z. Qed.

Lemma greater_than_integers (a b : Z) :
  greater_than (VNum (of_Z a)) (VNum (of_Z b)) = ret (b <? a)%Z.
Proof.
  unfold greater_than, of_Z, ret, bind. simpl. now rewrite Qltb_inject_Z.
Qed.

Lemma less_than_integers (a b : Z) :
  less_than (VNum (of_Z a)) (VNum (of_Z b)) = ret (a <? b)%Z.
Proof.
  unfold less_than, of_Z, ret, bind. simpl. now rewrite Qltb_inject_Z.
Qed.


(** ** isRequired *)

Lemma isRequired_off (input : value) : isRequired input (VBool false) = true.
Proof. reflexivity. Qed.

Lemma isRequired_on (input validationRequired : value) :
  validationRequired <> VBool false ->
  isRequired input validationRequired =
    negb ((typeof input =? "undefined") || strict_eq input VNull
          || strict_eq input (VStr "")
          || ((typeof input =? "object") && isEmpty input)).
Proof.
  intros Hreq. unfold isRequired.
  destruct (strict_eq validationRequired (VBool false)) eqn:E.
  - now apply strict_eq_false in E.
  - rewrite typeof_never_array. simpl.
    destruct ((typeof input =? "undefined") || strict_eq input VNull
              || strict_eq input (VStr "")); simpl; [reflexivity|].
    now destruct ((typeof input =? "object") && isEmpty input).
Qed.

Lemma missing_iff (input : value) :
  missing input <->
  (typeof input =? "undefined") || strict_eq input VNull
  || strict_eq input (VStr "")
  || ((typeof input =? "object") && isEmpty input) = true.
Proof.
  unfold missing, listed_as_missing, empty_mapping, empty_sequence,
    bare_object.
  split.
  - intros [[-> | [-> | [-> | [[a ->] | [a ->]]]]] | [a [rx ->]]];
      reflexivity.
  - destruct input as [ | | b | n | s | a props | a elems | a rx ]; simpl;
      try discriminate; auto.
    + destruct s; simpl; [auto | discriminate].
    + destruct props; [intros _ | discriminate].
      left; right; right; right; left. now exists a.
    + destruct elems; [intros _ | discriminate].
      left; right; right; right; right. now exists a.
    + intros _. right. now exists a, rx.
Qed.

(** C5, as the specification has it, fails on an object that is not a
    mapping and has no own enumerable property: [typeof] calls a RegExp an
    object and [_.isEmpty] finds nothing to enumerate in it, so the rule
    rejects it, although it is none of the five listed inputs. *)
Lemma isRequired_rejects_RegExp :
  isRequired (VRegExp 5 abc_pattern) (VBool true) = false
  /\ ~ listed_as_missing (VRegExp 5 abc_pattern)
  /\ ~ (isRequired (VRegExp 5 abc_pattern) (VBool true) = false
        <-> listed_as_missing (VRegExp 5 abc_pattern)).
Proof.
  assert (Hnot : ~ listed_as_missing (VRegExp 5 abc_pattern)).
  { intros [H | [H | [H | [[a H] | [a H]]]]]; discriminate H. }
  split; [reflexivity|]. split; [exact Hnot|].
  intros [Hclaim _]. now apply Hnot, Hclaim.
Qed.

(** C5, amended.  With the argument exactly false the rule passes
    whatever the input.  With any other argument it fails exactly on the
    missing inputs: undefined, null, the empty string, an empty mapping,
    an empty sequence, or another object without own enumerable
    properties; it passes on every other input.  The four instances of the
    specification are included. *)
Theorem isRequired_spec (input validationRequired : value) :
  (validationRequired = VBool false ->
   isRequired input validationRequired = true)
  /\ (validationRequired <> VBool false ->
      (isRequired input validationRequired = false <-> missing input)
      /\ (isRequired input validationRequired = true <-> ~ missing input))
  /\ isRequired VUndefined (VBool true) = false
  /\ isRequired VUndefined (VBool false) = true
  /\ isRequired (VStr "") (VBool true) = false
  /\ isRequired (VStr "x") (VBool true) = true.
Proof.
  split; [intros ->; apply isRequired_off|].
  split; [|repeat split; reflexivity].
  intros Hreq. rewrite (isRequired_on input _ Hreq), missing_iff.
  destruct ((typeof input =? "undefined") || strict_eq input VNull
            || strict_eq input (VStr "")
            || ((typeof input =? "object") && isEmpty input));
    simpl; repeat split; congruence.
Qed.

Lemma isRequired_spec_witness :
  isRequired (VArray 7 [VStr "a"]) (VBool false) = true
  /\ (isRequired (VObject 3 []) VUndefined = false <-> missing (VObject 3 [])).
Proof.
  split.
  - exact (proj1 (isRequired_spec (VArray 7 [VStr "a"]) (VBool false))
             eq_refl).
  - refine (proj1 (proj1 (proj2 (isRequired_spec (VObject 3 []) VUndefined))
                     _)).
    discriminate.
Defined.

(** C9.  An empty array is rejected whenever the check is on.  The branch
    written for arrays cannot be the one that does it, as [typeof] never
    answers array; the branch before it does, since an array is an object
    to [typeof] and an empty array is empty to [_.isEmpty]. *)
Theorem isRequired_empty_array (a : addr) (validationRequired : value) :
  validationRequired <> VBool false ->
  isRequired (VArray a []) validationRequired = false
  /\ (forall v, (typeof v =? "array") = false)
  /\ (typeof (VArray a []) =? "object") && isEmpty (VArray a []) = true.
Proof.
  intros Hreq. split; [|split].
  - now rewrite (isRequired_on _ _ Hreq).
  - exact typeof_never_array.
  - reflexivity.
Qed.

Lemma isRequired_empty_array_witness :
  isRequired (VArray 4 []) (VBool true) = false.
Proof.
  refine (proj1 (isRequired_empty_array 4 (VBool true) _)). discriminate.
Defined.

(** ** The length rules *)

(** C7.  On an input that is not a string both length rules log the
    diagnostic and return false, whatever the argument; they do not
    throw. *)
Theorem length_rules_reject_non_strings (input argument : value) :
  typeof input <> "string" ->
  hasMinLength input argument = ([non_string_diagnostic], Return false)
  /\ hasMaxLength input argument = ([non_string_diagnostic], Return false).
Proof.
  intros Htype. unfold hasMinLength, hasMaxLength.
  destruct (typeof input =? "string") eqn:E.
  - now apply String.eqb_eq in E.
  - split; reflexivity.
Qed.

Lemma length_rules_reject_non_strings_witness :
  hasMinLength (VNum (of_Z 42)) (VNum (of_Z 5))
    = ([non_string_diagnostic], Return false)
  /\ hasMaxLength (VNum (of_Z 42)) (VNum (of_Z 5))
    = ([non_string_diagnostic], Return false).
Proof.
  apply (length_rules_reject_non_strings (VNum (of_Z 42)) (VNum (of_Z 5))).
  simpl. discriminate.
Defined.

Lemma hasMaxLength_integer (s : string) (max : Z) :
  hasMaxLength (VStr s) (VNum (of_Z max)) =
    ret (negb (negb (max =? 0)%Z && (max <? Z.of_nat (String.length s))%Z)).
Proof.
  unfold hasMaxLength. simpl typeof. simpl negb at 1. cbv iota.
  rewrite ToBoolean_integer. unfold get_length, of_nat.
  destruct (max =? 0)%Z; simpl negb.
  - reflexivity.
  - rewrite greater_than_integers.
    now destruct (max <? Z.of_nat (String.length s))%Z.
Qed.

Lemma hasMinLength_integer (s : string) (min : Z) :
  hasMinLength (VStr s) (VNum (of_Z min)) =
    ret (negb (negb (min =? 0)%Z && (Z.of_nat (String.length s) <? min)%Z)).
Proof.
  unfold hasMinLength. simpl typeof. simpl negb at 1. cbv iota.
  rewrite ToBoolean_integer. unfold get_length, of_nat.
  destruct (min =? 0)%Z; simpl negb.
  - reflexivity.
  - rewrite less_than_integers.
    now destruct (Z.of_nat (String.length s) <? min)%Z.
Qed.

(** a non-empty string whose length lies within the two bounds passes
    both length rules *)
Lemma length_rules_within_bounds (s : string) (min max : Z) :
  s <> "" ->
  (min <= Z.of_nat (String.length s) <= max)%Z ->
  hasMinLength (VStr s) (VNum (of_Z min)) = ret true
  /\ hasMaxLength (VStr s) (VNum (of_Z max)) = ret true.
Proof.
  intros Hs [Hmin Hmax].
  rewrite hasMinLength_integer, hasMaxLength_integer.
  assert (Hlen : (0 < Z.of_nat (String.length s))%Z)
    by (destruct s; [congruence | simpl; lia]).
  destruct (Z.ltb_spec (Z.of_nat (String.length s)) min); [lia|].
  destruct (Z.ltb_spec max (Z.of_nat (String.length s))); [lia|].
  now rewrite !andb_false_r.
Qed.

(** C3, as the specification has it, fails for the bound 0: the test is
    [max && inputLength > max], and 0 is falsy, so no string is too long
    for the bound 0. *)
Lemma hasMaxLength_bound_zero :
  hasMaxLength (VStr "abc") (VNum (of_Z 0)) = ret true
  /\ ~ ((0 <= 0)%Z ->
        (hasMaxLength (VStr "abc") (VNum (of_Z 0)) = ret false
         <-> (Z.of_nat (String.length "abc") > 0)%Z)).
Proof.
  split; [reflexivity|]. intros Hclaim.
  assert (Hlong : (Z.of_nat (String.length "abc") > 0)%Z) by (simpl; lia).
  apply (Hclaim ltac:(lia)) in Hlong. discriminate Hlong.
Qed.

(** C3, amended.  For a string and an integer bound above 0 the rule
    fails exactly when the string is longer than the bound and passes
    otherwise; for the bound 0 it passes on every string. *)
Theorem hasMaxLength_spec (s : string) (max : Z) :
  ((0 < max)%Z ->
   (hasMaxLength (VStr s) (VNum (of_Z max)) = ret false
    <-> (Z.of_nat (String.length s) > max)%Z)
   /\ (hasMaxLength (VStr s) (VNum (of_Z max)) = ret true
       <-> (Z.of_nat (String.length s) <= max)%Z))
  /\ hasMaxLength (VStr s) (VNum (of_Z 0)) = ret true.
Proof.
  split; [|now rewrite hasMaxLength_integer].
  intros Hpos. rewrite hasMaxLength_integer.
  destruct (Z.eqb_spec max 0) as [-> | _]; [lia|]. simpl negb.
  destruct (Z.ltb_spec max (Z.of_nat (String.length s))); simpl;
    unfold ret; repeat split; intros; try lia; try congruence.
Qed.

Lemma hasMaxLength_spec_witness :
  (hasMaxLength (VStr "abc") (VNum (of_Z 2)) = ret false
   <-> (Z.of_nat (String.length "abc") > 2)%Z)
  /\ (hasMaxLength (VStr "abc") (VNum (of_Z 2)) = ret true
      <-> (Z.of_nat (String.length "abc") <= 2)%Z).
Proof.
  apply (proj1 (hasMaxLength_spec "abc" 2)). lia.
Defined.

(** ** isNumeric *)






(** ** The matcher and its fuel *)

Section Fuel.
Variables icase mline : bool.

Lemma more_ext m greedy (Hm : extensional m) k k' :
  (forall q, k q = k' q) ->
  forall fuel left p, more m greedy k fuel left p = more m greedy k' fuel left p.
Proof.
  intros Hk. induction fuel as [| fuel IH]; intros left p; simpl;
    [reflexivity|].
  rewrite (Hk p).
  assert (Hagain :
    m p (fun p' => if (remaining p' <? remaining p)%nat
                   then more m greedy k fuel (option_map pred left) p'
                   else None)
    = m p (fun p' => if (remaining p' <? remaining p)%nat
                     then more m greedy k' fuel (option_map pred left) p'
                     else None)).
  { apply Hm. intros q. now rewrite IH. }
  destruct left as [[| n] |]; now rewrite ?Hagain.
Qed.

Lemma required_ext m (Hm : extensional m) k k' :
  (forall q, k q = k' q) ->
  forall n p, required m n k p = required m n k' p.
Proof.
  intros Hk. induction n as [| n IH]; intros p; simpl; [apply Hk|].
  apply Hm. exact IH.
Qed.

Lemma run_ext (r : regex) : extensional (run icase mline r).
Proof.
  unfold extensional.
  induction r as [ | c | | negated ranges | r1 IH1 r2 IH2 | r1 IH1 r2 IH2
                   | min max greedy r1 IH1 | r1 IH1 | | ];
    intros p k k' Hk; cbn [run];
    try (unfold advance; destruct (snd p) as [| c' rest];
         [reflexivity | now rewrite Hk]);
    try now rewrite Hk.
  - apply IH1. intros q. now apply IH2.
  - rewrite (IH1 p k k' Hk), (IH2 p k k' Hk). reflexivity.
  - apply required_ext; [exact IH1|]. intros q. now apply more_ext.
  - now apply IH1.
Qed.

(** The bound on the extra iterations is never reached: with more fuel
    than text the answer of [more] does not depend on the fuel. *)
Lemma more_fuel m greedy k (Hm : extensional m) :
  forall fuel fuel' left p,
    remaining p < fuel -> remaining p < fuel' ->
    more m greedy k fuel left p = more m greedy k fuel' left p.
Proof.
  induction fuel as [| fuel IH]; intros [| fuel'] left p H1 H2; try lia.
  simpl.
  assert (Hagain :
    m p (fun p' => if (remaining p' <? remaining p)%nat
                   then more m greedy k fuel (option_map pred left) p'
                   else None)
    = m p (fun p' => if (remaining p' <? remaining p)%nat
                     then more m greedy k fuel' (option_map pred left) p'
                     else None)).
  { apply Hm. intros q. destruct (Nat.ltb_spec (remaining q) (remaining p));
      [apply IH; lia | reflexivity]. }
  destruct left as [[| n] |]; now rewrite ?Hagain.
Qed.

Lemma repeat_fuel (r : regex) (greedy : bool) k fuel left p :
  remaining p < fuel ->
  more (run icase mline r) greedy k fuel left p
  = more (run icase mline r) greedy k (S (remaining p)) left p.
Proof. intros Hf. apply more_fuel; [apply run_ext | lia | lia]. Qed.
End Fuel.

(** ** matchesRegularExpression *)

Lemma search_suffix (icase mline : bool) (r : regex) (s : string) :
  forall prev start e,
    search icase mline r prev s = Some (start, e) ->
    exists before, s = before ++ start.
Proof.
  induction s as [| c s IH]; intros prev start e; simpl.
  - destruct (run icase mline r (prev, "") Some); [|discriminate].
    intros [= <- _]. now exists "".
  - destruct (run icase mline r (prev, String c s) Some).
    + intros [= <- _]. now exists "".
    + intros Hs. apply IH in Hs as [before ->]. now exists (String c before).
Qed.

Lemma substring_length (n : nat) (s : string) :
  String.length (substring 0 n s) <= String.length s.
Proof.
  revert n. induction s as [| c s IH]; intros [| n]; simpl; try lia.
  specialize (IH n). lia.
Qed.

Lemma append_length (a b : string) :
  String.length (a ++ b) = String.length a + String.length b.
Proof. induction a; simpl; congruence. Qed.

(** a first match that equals the input starts at its first character *)
Lemma whole_match_starts_at_0 (rx : RegExp) (s start : string) (e : position) :
  RegExp_search rx None s = Some (start, e) -> matched start e = s ->
  start = s.
Proof.
  intros Hs Hm. apply search_suffix in Hs as [before ->].
  pose proof (substring_length (String.length start - remaining e) start) as Hl.
  fold (matched start e) in Hl. rewrite Hm, append_length in Hl.
  destruct before; [reflexivity | simpl in Hl; lia].
Qed.

Section Patterns.
Context `{Host}.

Lemma match_RegExp_object (s : string) (a : addr) (rx : RegExp) :
  String_prototype_match (VStr s) (VRegExp a rx) = ret (String_match s rx).
Proof. reflexivity. Qed.

(** Element 0 of the result of [match] is the leftmost match, with or
    without the global flag. *)
Lemma String_match_first (s : string) (rx : RegExp) :
  match RegExp_search rx None s with
  | None => String_match s rx = None
  | Some (start, e) =>
      exists rest, String_match s rx = Some (matched start e :: rest)
  end.
Proof.
  unfold String_match. destruct (global rx).
  - simpl match_all. destruct (RegExp_search rx None s) as [[start e]|].
    + eexists. reflexivity.
    + reflexivity.
  - destruct (RegExp_search rx None s) as [[start e]|].
    + now exists [].
    + reflexivity.
Qed.

Lemma matchesRegularExpression_RegExp (s : string) (a : addr) (rx : RegExp) :
  matchesRegularExpression (VStr s) (VRegExp a rx) =
    ret match RegExp_search rx None s with
        | Some (start, e) => matched start e =? s
        | None => false
        end.
Proof.
  unfold matchesRegularExpression. rewrite match_RegExp_object.
  pose proof (String_match_first s rx) as Hfirst.
  destruct (RegExp_search rx None s) as [[start e]|].
  - destruct Hfirst as [rest ->]. unfold ret, bind. simpl.
    now destruct (matched start e =? s).
  - rewrite Hfirst. reflexivity.
Qed.

(** C6.  On a string and a pattern the rule returns true exactly when the
    pattern has a match in the input and the first matched substring is
    the whole input, and then that match starts at the first character;
    with no match, or with a first match that is only a part of the input,
    it returns false.  So ["abc"] passes [/abc/] and ["abcd"] does not. *)
Theorem matchesRegularExpression_spec (s : string) (a : addr) (rx : RegExp) :
  (matchesRegularExpression (VStr s) (VRegExp a rx) = ret true <->
   exists start e, RegExp_search rx None s = Some (start, e)
                   /\ matched start e = s)
  /\ (matchesRegularExpression (VStr s) (VRegExp a rx) = ret true ->
      exists e, RegExp_search rx None s = Some (s, e))
  /\ (matchesRegularExpression (VStr s) (VRegExp a rx) = ret false <->
      RegExp_search rx None s = None
      \/ exists start e, RegExp_search rx None s = Some (start, e)
                         /\ matched start e <> s)
  /\ matchesRegularExpression (VStr "abc") (VRegExp a abc_pattern) = ret true
  /\ matchesRegularExpression (VStr "abcd") (VRegExp a abc_pattern) = ret false.
Proof.
  rewrite matchesRegularExpression_RegExp.
  split; [|split; [|split; [|split; reflexivity]]].
  - destruct (RegExp_search rx None s) as [[start e]|]; split.
    + intros [= E]. apply String.eqb_eq in E. now exists start, e.
    + intros [start' [e' [[= <- <-] E]]]. apply String.eqb_eq in E.
      now rewrite E.
    + discriminate.
    + intros [start [e [[=] _]]].
  - destruct (RegExp_search rx None s) as [[start e]|] eqn:Hs;
      [|discriminate].
    intros [= E]. apply String.eqb_eq in E.
    rewrite (whole_match_starts_at_0 rx s start e Hs E). now exists e.
  - destruct (RegExp_search rx None s) as [[start e]|]; split.
    + intros [= E]. apply String.eqb_neq in E. right. now exists start, e.
    + intros [[=] | [start' [e' [[= <- <-] E]]]].
      apply String.eqb_neq in E. now rewrite E.
    + now left.
    + reflexivity.
Qed.

(** A pattern given as text, as the parameter is documented, is handed to
    the RegExp constructor first; the rule then behaves as on the RegExp
    object, and a text that is not a pattern makes it throw. *)
Lemma matchesRegularExpression_text (s p : string) :
  matchesRegularExpression (VStr s) (VStr p) =
    match RegExp_new p with
    | Some rx => matchesRegularExpression (VStr s) (VRegExp 0 rx)
    | None => throw SyntaxError
    end.
Proof.
  unfold matchesRegularExpression, String_prototype_match, bind, ret, throw.
  simpl. destruct (RegExp_new p) as [rx|]; reflexivity.
Qed.

(** ** confirmEmail *)

(** With a lookup that answers a missing field with a falsy value, the
    rule logs a warning and returns true; with one that answers with an
    object, the rule returns true exactly when the input is strictly equal
    to what [val()] returns. *)
Theorem confirmEmail_spec (input selector : value) :
  (Sequencer_find selector = NoField ->
   forall text, ToString selector = ret text ->
   confirmEmail input selector = ([no_original_email text], Return true))
  /\ (forall current, Sequencer_find selector = Field current ->
      confirmEmail input selector = ret (strict_eq input current)
      /\ (confirmEmail input selector = ret true
          <-> strict_eq input current = true)).
Proof.
  unfold confirmEmail. split.
  - intros -> text ->. reflexivity.
  - intros current ->.
    unfold ret. destruct (strict_eq input current); repeat split; congruence.
Qed.

(** C4.  The rule tests the answer of the lookup for falsiness.  A lookup
    that answers a missing field with an empty collection never takes
    that branch: nothing is logged, [val()] is undefined, and the rule
    returns false for every input other than undefined instead of
    passing. *)
Theorem confirmEmail_fails_closed (input selector : value) :
  Sequencer_find selector = Field VUndefined ->
  confirmEmail input selector = ret (strict_eq input VUndefined)
  /\ (forall s, input = VStr s ->
      confirmEmail input selector = ([], Return false)).
Proof.
  intros Hfind. unfold confirmEmail. rewrite Hfind. split.
  - now destruct (strict_eq input VUndefined).
  - now intros s ->.
Qed.
End Patterns.

Lemma confirmEmail_fails_closed_witness :
  @confirmEmail collection_host (VStr "a@b.com") (VStr "#missing")
    = ([], Return false).
Proof.
  apply (proj2 (@confirmEmail_fails_closed collection_host (VStr "a@b.com")
                  (VStr "#missing") eq_refl) "a@b.com" eq_refl).
Defined.

Lemma confirmEmail_spec_witness :
  @confirmEmail example_host (VStr "a@b.com") (VStr "#other")
    = ([no_original_email "#other"], Return true)
  /\ @confirmEmail example_host (VStr "a@b.com") (VStr "#ugc_submission_email")
       = ret (strict_eq (VStr "a@b.com") (VStr "a@b.com")).
Proof.
  split.
  - exact (proj1 (@confirmEmail_spec example_host (VStr "a@b.com")
                    (VStr "#other")) eq_refl "#other" eq_refl).
  - exact (proj1 (proj2 (@confirmEmail_spec example_host (VStr "a@b.com")
                           (VStr "#ugc_submission_email"))
                    (VStr "a@b.com") eq_refl)).
Defined.

(** ** validate *)

(** ** The walk of the options *)

Lemma digit_char (z : Z) :
  is_digit (ascii_of_nat (48 + Z.to_nat (z mod 10))) = true.
Proof.
  pose proof (Z.mod_pos_bound z 10 ltac:(lia)) as Hb.
  unfold is_digit. rewrite nat_ascii_embedding by lia.
  apply andb_true_intro. split; apply Nat.leb_le; lia.
Qed.

Lemma Pos_digits_leading (fuel : nat) :
  forall z acc, leading_digit acc -> leading_digit (Pos_digits fuel z acc).
Proof.
  induction fuel as [| fuel IH]; intros z acc Hacc; simpl; [exact Hacc|].
  assert (Hnew : leading_digit
            (String (ascii_of_nat (48 + Z.to_nat (z mod 10))) acc))
    by (eexists; eexists; split; [reflexivity | apply digit_char]).
  destruct (z <? 10)%Z; [exact Hnew | now apply IH].
Qed.

Lemma Z_to_string_leading (z : Z) : leading_digit (Z_to_string z).
Proof.
  unfold Z_to_string. simpl.
  assert (Hnew : leading_digit
            (String (ascii_of_nat (48 + Z.to_nat (z mod 10))) ""))
    by (eexists; eexists; split; [reflexivity | apply digit_char]).
  destruct (z <? 10)%Z; [exact Hnew | now apply Pos_digits_leading].
Qed.

(** an options object without a key [length] is walked key by key *)
Lemma no_length_plain (options : list (string * value)) :
  ~ In "length" (map fst options) -> isArrayLike options = None.
Proof.
  intros Hno. unfold isArrayLike, get_property.
  destruct (find (fun p => fst p =? "length") options) as [p|] eqn:E;
    [|reflexivity].
  apply find_some in E as [Hin Hkey]. apply String.eqb_eq in Hkey.
  elim Hno. rewrite <- Hkey. now apply in_map.
Qed.

Lemma each_plain {S : Type} (options : list (string * value))
    (f : value -> string -> S -> M S) (s : S) :
  isArrayLike options = None -> each options f s = each_key options f s.
Proof. unfold each. now intros ->. Qed.

Section Aggregator.
Context `{Host}.

Lemma snd_bind {A B} (m : M A) (k : A -> M B) :
  snd (bind m k) =
    match snd m with
    | Return a => snd (k a)
    | Throw e => Throw e
    end.
Proof. destruct m as [l [a | e]]; simpl; [now destruct (k a) | reflexivity]. Qed.

(** the registry holds the eight predicates under their names *)
Lemma invoke_known (input ruleVal : value) :
  invoke input ("isRequired", ruleVal) = ret (VBool (isRequired input ruleVal))
  /\ invoke input ("isNumeric", ruleVal) = returning (fun i _ => isNumeric i) input ruleVal
  /\ invoke input ("hasMinLength", ruleVal) = returning hasMinLength input ruleVal
  /\ invoke input ("hasMaxLength", ruleVal) = returning hasMaxLength input ruleVal
  /\ invoke input ("matchesRegularExpression", ruleVal)
     = returning matchesRegularExpression input ruleVal
  /\ invoke input ("isEmail", ruleVal) = returning (fun i _ => isEmail i) input ruleVal
  /\ invoke input ("isUrl", ruleVal) = returning (fun i _ => isUrl i) input ruleVal
  /\ invoke input ("confirmEmail", ruleVal) = returning confirmEmail input ruleVal.
Proof. repeat split. Qed.

Lemma known_rule_is_function (ruleType : string) :
  In ruleType rule_names -> exists f, validators_get ruleType = Some f.
Proof.
  unfold rule_names. simpl.
  intros [<- | [<- | [<- | [<- | [<- | [<- | [<- | [<- | []]]]]]]]];
    eexists; reflexivity.
Qed.

Lemma check_rule_outcome (input ruleVal : value) (ruleType : string)
    (failures : list string) :
  snd (check_rule input ruleVal ruleType failures) =
    match snd (invoke input (ruleType, ruleVal)) with
    | Return outcome =>
        Return (if strict_eq outcome (VBool false)
                then (failures ++ [ruleType])%list else failures)
    | Throw e => Throw e
    end.
Proof.
  unfold check_rule, invoke. simpl fst. simpl snd.
  destruct (validators_get ruleType) as [f|]; rewrite snd_bind; simpl.
  - rewrite snd_bind. destruct (snd (f input ruleVal)) as [outcome|e].
    + now destruct (strict_eq outcome (VBool false)).
    + reflexivity.
  - reflexivity.
Qed.

Lemma check_rule_unknown (input ruleVal : value) (ruleType : string)
    (failures : list string) :
  validators_get ruleType = None ->
  check_rule input ruleVal ruleType failures =
    ([not_recognized ruleType], Throw TypeError).
Proof. unfold check_rule. now intros ->. Qed.

(** no index and no key [length] names a function of the registry *)
Lemma leading_digit_unknown (key : string) :
  leading_digit key -> validators_get key = None.
Proof.
  intros [c [r [-> Hc]]].
  destruct c as [[] [] [] [] [] [] [] []];
    try (vm_compute in Hc; discriminate Hc); reflexivity.
Qed.

Lemma index_key_unknown (i : nat) : validators_get (index_key i) = None.
Proof. apply leading_digit_unknown, Z_to_string_leading. Qed.

(** An array-like options object with no index below its length is not
    walked at all; with one, the walk stops at index 0, which names no
    rule. *)
Lemma each_array_like (input : value) (options : list (string * value))
    (count : nat) (failures : list string) :
  isArrayLike options = Some count ->
  each options (check_rule input) failures =
    match count with
    | O => ret failures
    | Datatypes.S _ => ([not_recognized "0"], Throw TypeError)
    end.
Proof.
  unfold each. intros ->. destruct count as [| count]; [reflexivity|].
  cbn [each_index].
  rewrite check_rule_unknown by apply index_key_unknown. reflexivity.
Qed.

(** when every call returns, no key is [length]: the keys are walked *)
Lemma returning_options_plain (input : value)
    (options : list (string * value)) :
  Forall (fun rule => exists v, snd (invoke input rule) = Return v) options ->
  isArrayLike options = None.
Proof.
  intros Hall. apply no_length_plain. intros Hin.
  apply in_map_iff in Hin as [[key val] [Hkey Hin]]. simpl in Hkey. subst key.
  eapply Forall_forall in Hall as [v Hv]; [|exact Hin]. discriminate Hv.
Qed.

(** Every rule of the options is run, in order, as long as the calls
    return; the names of those that return false are collected. *)
Lemma each_key_check_rule_returns (input : value)
    (options : list (string * value)) :
  Forall (fun rule => exists v, snd (invoke input rule) = Return v) options ->
  forall failures,
    snd (each_key options (check_rule input) failures) =
      Return (failures ++ failed_rules input options)%list.
Proof.
  unfold failed_rules. induction 1 as [| [key val] rest [v Hv] _ IH];
    intros failures; simpl.
  - now rewrite app_nil_r.
  - rewrite snd_bind, check_rule_outcome. unfold fails at 1. rewrite Hv.
    destruct (strict_eq v (VBool false)); rewrite IH; simpl.
    + now rewrite <- app_assoc.
    + reflexivity.
Qed.

Lemma each_check_rule_returns (input : value)
    (options : list (string * value)) :
  Forall (fun rule => exists v, snd (invoke input rule) = Return v) options ->
  forall failures,
    snd (each options (check_rule input) failures) =
      Return (failures ++ failed_rules input options)%list.
Proof.
  intros Hall failures.
  rewrite each_plain by (now apply (returning_options_plain input)).
  now apply each_key_check_rule_returns.
Qed.

(** Whatever the rules do, a name enters the failures only as the key of
    the pair being processed. *)
Lemma each_key_check_rule_keys (input : value)
    (options : list (string * value)) :
  forall failures result,
    snd (each_key options (check_rule input) failures) = Return result ->
    exists added, result = (failures ++ added)%list
                  /\ incl added (map fst options).
Proof.
  induction options as [| [key val] rest IH]; intros failures result; simpl.
  - intros [= <-]. exists []. split; [now rewrite app_nil_r | easy].
  - rewrite snd_bind, check_rule_outcome.
    destruct (snd (invoke input (key, val))) as [outcome|e]; [|discriminate].
    intros Hrest. apply IH in Hrest as [added [-> Hincl]].
    destruct (strict_eq outcome (VBool false)).
    + exists (key :: added). split; [now rewrite <- app_assoc|].
      intros k [<- | Hk]; [now left | right; now apply Hincl].
    + exists added. split; [reflexivity|]. now apply incl_tl.
Qed.

Lemma each_check_rule_keys (input : value) (options : list (string * value)) :
  forall failures result,
    snd (each options (check_rule input) failures) = Return result ->
    exists added, result = (failures ++ added)%list
                  /\ incl added (map fst options).
Proof.
  intros failures result.
  destruct (isArrayLike options) as [count|] eqn:E.
  - rewrite (each_array_like input options count failures E).
    destruct count; [|discriminate].
    intros [= <-]. exists []. split; [now rewrite app_nil_r | easy].
  - rewrite each_plain by exact E. apply each_key_check_rule_keys.
Qed.

Lemma validate_outcome (input : value) (options : list (string * value))
    (returnSpecifics : value) :
  snd (validate input options returnSpecifics) =
    match snd (each options (check_rule input) []) with
    | Return [] => Return (Boolean true)
    | Return failures =>
        if strict_eq returnSpecifics (VBool true)
        then Return (Failures failures) else Return (Boolean false)
    | Throw e => Throw e
    end.
Proof.
  unfold validate. rewrite snd_bind.
  destruct (snd (each options (check_rule input) [])) as [[|k failures]|e];
    simpl; try reflexivity.
  now destruct (strict_eq returnSpecifics (VBool true)).
Qed.

(** C2, as the specification has it, fails where a rule throws: the
    options have a known key only, the call of [isEmail] on a number does
    not return a value, and [validate] throws instead of returning true,
    false or a list. *)
Lemma validate_throws_with_known_rules :
  Forall (fun rule => In (fst rule) rule_names) [("isEmail", VBool true)]
  /\ @validate example_host (VNum (of_Z 42)) [("isEmail", VBool true)]
       (VBool true) = throw TypeError
  /\ ~ (exists r,
         snd (@validate example_host (VNum (of_Z 42)) [("isEmail", VBool true)]
                (VBool true)) = Return r).
Proof.
  split; [|split].
  - constructor; [simpl; auto 10 | constructor].
  - reflexivity.
  - intros [r Hr]. discriminate Hr.
Qed.

(** C2, amended.  When every call made for the options returns a value
    other than false, [validate] returns true.  When every call returns and some call
    returns false, it returns the names of the rules that returned false,
    in the order of the options, if [returnSpecifics] is exactly true, and
    false otherwise.  With no options it returns true.  This holds in
    particular for options whose keys are all names of the registry. *)
Theorem validate_result (input : value) (options : list (string * value))
    (returnSpecifics : value) :
  ((forall rule, In rule options ->
      exists v, snd (invoke input rule) = Return v /\ v <> VBool false) ->
   snd (validate input options returnSpecifics) = Return (Boolean true))
  /\ ((forall rule, In rule options ->
         exists v, snd (invoke input rule) = Return v) ->
      (exists rule, In rule options
                    /\ snd (invoke input rule) = Return (VBool false)) ->
      failed_rules input options <> []
      /\ (returnSpecifics = VBool true ->
          snd (validate input options returnSpecifics)
            = Return (Failures (failed_rules input options)))
      /\ (returnSpecifics <> VBool true ->
          snd (validate input options returnSpecifics)
            = Return (Boolean false)))
  /\ validate input [] returnSpecifics = ret (Boolean true).
Proof.
  split; [|split; [|reflexivity]].
  - intros Hall. rewrite validate_outcome, each_check_rule_returns.
    + simpl. replace (failed_rules input options) with (@nil string);
        [reflexivity|].
      unfold failed_rules. symmetry.
      assert (Hnone : filter (fails input) options = []);
        [|now rewrite Hnone].
      induction options as [| rule rest IH]; [reflexivity|]. simpl.
      destruct (Hall rule (or_introl eq_refl)) as [v [Hv Hne]].
      unfold fails at 1. rewrite Hv.
      destruct (strict_eq v (VBool false)) eqn:E.
      * now apply strict_eq_false in E.
      * apply IH. intros r Hr. apply Hall. now right.
    + apply Forall_forall. intros rule Hin.
      destruct (Hall rule Hin) as [v [Hv _]]. now exists v.
  - intros Hall [rule [Hin Hfalse]].
    assert (Hne : failed_rules input options <> []).
    { unfold failed_rules. intros Hnil. apply map_eq_nil in Hnil.
      assert (Hf : In rule (filter (fails input) options)).
      { apply filter_In. split; [exact Hin|]. unfold fails.
        now rewrite Hfalse. }
      now rewrite Hnil in Hf. }
    split; [exact Hne|].
    rewrite validate_outcome, each_check_rule_returns
      by (now apply Forall_forall).
    simpl. destruct (failed_rules input options) as [|k ks]; [easy|].
    split.
    + now intros ->.
    + intros Hrs. destruct (strict_eq returnSpecifics (VBool true)) eqn:E.
      * now apply strict_eq_true in E.
      * reflexivity.
Qed.

(** C10.  With [returnSpecifics] exactly true, [validate] never returns
    false and never returns an empty sequence: whatever it returns is
    either true or a non-empty sequence of keys of the options.  It does
    return whenever the calls made for the options return. *)
Theorem validate_with_specifics (input : value) (options : list (string * value)) :
  snd (validate input options (VBool true)) <> Return (Boolean false)
  /\ snd (validate input options (VBool true)) <> Return (Failures [])
  /\ (forall result,
        snd (validate input options (VBool true)) = Return result ->
        result = Boolean true
        \/ exists failures,
             result = Failures failures /\ failures <> []
             /\ incl failures (map fst options))
  /\ ((forall rule, In rule options ->
         exists v, snd (invoke input rule) = Return v) ->
      exists result, snd (validate input options (VBool true)) = Return result).
Proof.
  rewrite validate_outcome. simpl strict_eq.
  destruct (snd (each options (check_rule input) [])) as [failures|e] eqn:E.
  - apply each_check_rule_keys in E as [added [-> Hincl]]. simpl app.
    destruct added as [|k ks]; repeat split; try discriminate.
    + intros result [= <-]. now left.
    + intros _. now eexists.
    + intros result [= <-]. right. exists (k :: ks). now repeat split.
    + intros _. now eexists.
  - repeat split; try discriminate.
    intros Hall. rewrite each_check_rule_returns in E
      by (now apply Forall_forall).
    discriminate E.
Qed.

(** A name that the registry does not hold and [Object.prototype] does
    not provide stops the run: the diagnostic is logged, the call of the
    missing function throws, and the rules after it are not reached. *)
Lemma validate_stops_at_unknown_rule (input ruleVal returnSpecifics : value)
    (ruleType : string) (rest : list (string * value)) :
  isArrayLike ((ruleType, ruleVal) :: rest) = None ->
  validators_get ruleType = None ->
  validate input ((ruleType, ruleVal) :: rest) returnSpecifics =
    ([not_recognized ruleType], Throw TypeError).
Proof.
  intros Hplain Hnone. unfold validate. rewrite each_plain by exact Hplain.
  cbn [each_key]. now rewrite (check_rule_unknown _ _ _ _ Hnone).
Qed.

(** C1.  The option [matchesWhiteList], which the header of the source
    lists among the options, is not in the registry: [validate] logs that
    the type is not recognized and then throws a TypeError instead of
    skipping the rule, so that a rule placed after it, here one that
    would fail, is never evaluated. *)
Theorem validate_unknown_rule_throws (input ruleVal returnSpecifics : value) :
  validate input [("matchesWhiteList", ruleVal)] returnSpecifics
    = ([not_recognized "matchesWhiteList"], Throw TypeError)
  /\ validate input [("matchesWhiteList", ruleVal);
                     ("isRequired", VBool true)] returnSpecifics
     = ([not_recognized "matchesWhiteList"], Throw TypeError).
Proof. split; now apply validate_stops_at_unknown_rule. Qed.

(** ** Worked examples of the specification *)

Example isEmail_examples :
  isEmail (VStr "a@b.com") = ret true
  /\ isEmail (VStr "not-an-email") = ret false.
Proof. split; vm_compute; reflexivity. Qed.

Example isUrl_examples :
  isUrl (VStr "http://example.com/a?b=1") = ret true
  /\ isUrl (VStr "no url here") = ret false.
Proof. split; vm_compute; reflexivity. Qed.

(** the numeric rule passes, the length rule fails *)
Example validate_collects_failures :
  validate (VStr "42")
    [("isNumeric", VBool true); ("hasMinLength", VNum (of_Z 5))] (VBool true)
  = ret (Failures ["hasMinLength"]).
Proof. vm_compute. reflexivity. Qed.

(** no short-circuit: the rules after a failure are still run *)
Example validate_runs_every_rule :
  validate (VNum (of_Z 7))
    [("hasMinLength", VNum (of_Z 1)); ("isRequired", VBool true);
     ("hasMaxLength", VNum (of_Z 9))] (VBool true)
  = ([non_string_diagnostic; non_string_diagnostic],
     Return (Failures ["hasMinLength"; "hasMaxLength"])).
Proof. vm_compute. reflexivity. Qed.
End Aggregator.

Lemma validate_result_witness :
  snd (@validate example_host (VStr "42")
         [("isNumeric", VBool true); ("hasMaxLength", VNum (of_Z 5))]
         VUndefined) = Return (Boolean true)
  /\ snd (@validate example_host (VStr "42")
            [("isNumeric", VBool true); ("hasMinLength", VNum (of_Z 5))]
            (VBool true))
     = Return (Failures
                 (@failed_rules example_host (VStr "42")
                    [("isNumeric", VBool true);
                     ("hasMinLength", VNum (of_Z 5))])).
Proof.
  split.
  - apply (proj1 (@validate_result example_host (VStr "42")
                    [("isNumeric", VBool true);
                     ("hasMaxLength", VNum (of_Z 5))] VUndefined)).
    intros rule [<- | [<- | []]]; eexists;
      (split; [vm_compute; reflexivity | discriminate]).
  - refine (proj1 (proj2 (proj1 (proj2
             (@validate_result example_host (VStr "42")
                [("isNumeric", VBool true); ("hasMinLength", VNum (of_Z 5))]
                (VBool true))) _ _)) eq_refl).
    + intros rule [<- | [<- | []]]; eexists; vm_compute; reflexivity.
    + exists ("hasMinLength", VNum (of_Z 5)). split; [simpl; auto|].
      vm_compute. reflexivity.
Defined.

Lemma validate_with_specifics_witness :
  Failures ["hasMinLength"] = Boolean true
  \/ exists failures,
       Failures ["hasMinLength"] = Failures failures /\ failures <> []
       /\ incl failures
            (map fst [("isNumeric", VBool true);
                      ("hasMinLength", VNum (of_Z 5))]).
Proof.
  apply (proj1 (proj2 (proj2
           (@validate_with_specifics example_host (VStr "42")
              [("isNumeric", VBool true); ("hasMinLength", VNum (of_Z 5))])))).
  vm_compute. reflexivity.
Defined.


(** * Further properties *)

(** ** The effects *)

Lemma fst_bind {A B} (m : M A) (k : A -> M B) :
  fst (bind m k) =
    match snd m with
    | Return a => (fst m ++ fst (k a))%list
    | Throw _ => fst m
    end.
Proof. destruct m as [l [a | e]]; simpl; [now destruct (k a) | reflexivity]. Qed.

Lemma bind_assoc {A B C} (m : M A) (f : A -> M B) (g : B -> M C) :
  bind (bind m f) g = bind m (fun a => bind (f a) g).
Proof.
  destruct m as [l [a | e]]; simpl; [|reflexivity].
  destruct (f a) as [l1 [b | e]]; simpl; [|reflexivity].
  destruct (g b) as [l2 c]. now rewrite app_assoc.
Qed.

Lemma bind_ext {A B} (m : M A) (f g : A -> M B) :
  (forall a, f a = g a) -> bind m f = bind m g.
Proof. intros Hfg. destruct m as [l [a | e]]; simpl; now rewrite ?Hfg. Qed.

Lemma bind_ret_l {A B} (a : A) (k : A -> M B) : bind (ret a) k = k a.
Proof. unfold bind, ret. now destruct (k a). Qed.

Lemma bind_throw {A B} (m : M A) (k : A -> M B) (e : exn) :
  snd m = Throw e -> bind m k = (fst m, Throw e).
Proof. destruct m as [l [a | e']]; simpl; [discriminate | now intros [= ->]]. Qed.

(** the conversions log nothing *)
Lemma ToString_log : forall v, fst (ToString v) = [].
Proof.
  fix IH 1. intros [ | | [|] | n | s | a props | a elems | a rx ];
    try reflexivity.
  - simpl. now destruct (has_key "toString" props).
  - simpl.
    match goal with
    | |- fst (?join true elems) = [] =>
        assert (Hjoin : forall first, fst (join first elems) = []);
          [|apply Hjoin]
    end.
    induction elems as [| x elems IHl]; intros first; [reflexivity|].
    rewrite fst_bind.
    match goal with
    | |- match snd ?m with _ => _ end = [] =>
        assert (Hx : fst m = [])
          by (pose proof (IH x) as Hx0; destruct x; try reflexivity; exact Hx0);
        rewrite Hx; destruct (snd m); [|reflexivity]
    end.
    rewrite fst_bind, IHl. now destruct (snd _).
Qed.

Lemma ToNumber_log (v : value) : fst (ToNumber v) = [].
Proof.
  destruct v as [ | | [|] | | | | | ]; try reflexivity;
    unfold ToNumber; rewrite fst_bind, ToString_log; now destruct (snd _).
Qed.

(** comparing a number with any value compares it with the value
    converted to a number *)
Lemma less_than_number (x : number) (y : value) :
  less_than (VNum x) y = ny <- ToNumber y ;; ret (number_lt x ny).
Proof.
  destruct y as [ | | [|] | n | s | a props | a elems | a rx ];
    try reflexivity;
    unfold less_than, ToPrimitive, ToNumber; rewrite bind_ret_l, !bind_assoc;
    f_equal.
Qed.

Lemma greater_than_number (x : number) (y : value) :
  greater_than (VNum x) y = ny <- ToNumber y ;; ret (number_lt ny x).
Proof.
  destruct y as [ | | [|] | n | s | a props | a elems | a rx ];
    try reflexivity;
    unfold greater_than, ToPrimitive, ToNumber; rewrite bind_ret_l, !bind_assoc;
    f_equal.
Qed.

(** ** The length rules on strings *)

Lemma hasMinLength_string (s : string) (min : value) :
  hasMinLength (VStr s) min =
    if ToBoolean min then
      n <- ToNumber min ;;
      ret (negb (number_lt (of_nat (String.length s)) n))
    else ret true.
Proof.
  unfold hasMinLength. simpl typeof. simpl negb. cbv iota.
  destruct (ToBoolean min); [|reflexivity].
  unfold get_length. rewrite less_than_number, bind_assoc.
  apply bind_ext. intros n. rewrite bind_ret_l.
  destruct n as [| [] | q]; simpl; try reflexivity; now destruct (Qltb _ _).
Qed.

Lemma hasMaxLength_string (s : string) (max : value) :
  hasMaxLength (VStr s) max =
    if ToBoolean max then
      n <- ToNumber max ;;
      ret (negb (number_lt n (of_nat (String.length s))))
    else ret true.
Proof.
  unfold hasMaxLength. simpl typeof. simpl negb. cbv iota.
  destruct (ToBoolean max); [|reflexivity].
  unfold get_length. rewrite greater_than_number, bind_assoc.
  apply bind_ext. intros n. rewrite bind_ret_l.
  destruct n as [| [] | q]; simpl; try reflexivity; now destruct (Qltb _ _).
Qed.

(** X1.  On a string and an integer bound the minimum rule fails exactly
    when the string is shorter than the bound and passes otherwise.  The
    guard [min &&] changes nothing here: no string is shorter than 0. *)
Theorem hasMinLength_spec (s : string) (min : Z) :
  (hasMinLength (VStr s) (VNum (of_Z min)) = ret false
   <-> (Z.of_nat (String.length s) < min)%Z)
  /\ (hasMinLength (VStr s) (VNum (of_Z min)) = ret true
      <-> (min <= Z.of_nat (String.length s))%Z).
Proof.
  rewrite hasMinLength_integer.
  destruct (Z.eqb_spec min 0) as [-> | Hmin]; simpl negb.
  - unfold ret. repeat split; intros; try lia; try congruence.
  - destruct (Z.ltb_spec (Z.of_nat (String.length s)) min); simpl;
      unfold ret; repeat split; intros; try lia; try congruence.
Qed.

(** X2.  A string whose length lies between two integer bounds passes
    both length rules, the empty string between 0 and 0 included. *)
Theorem length_rules_accept_within_bounds (s : string) (min max : Z) :
  (min <= Z.of_nat (String.length s) <= max)%Z ->
  hasMinLength (VStr s) (VNum (of_Z min)) = ret true
  /\ hasMaxLength (VStr s) (VNum (of_Z max)) = ret true.
Proof.
  intros [Hmin Hmax]. rewrite hasMinLength_integer, hasMaxLength_integer.
  destruct (Z.ltb_spec (Z.of_nat (String.length s)) min); [lia|].
  destruct (Z.ltb_spec max (Z.of_nat (String.length s))); [lia|].
  now rewrite !andb_false_r.
Qed.

Lemma length_rules_accept_within_bounds_witness :
  hasMinLength (VStr "") (VNum (of_Z 0)) = ret true
  /\ hasMaxLength (VStr "") (VNum (of_Z 0)) = ret true.
Proof.
  apply (length_rules_accept_within_bounds "" 0 0). simpl. lia.
Defined.

(** X3.  A bound that is falsy (undefined, null, false, 0, NaN, the empty
    string) or that converts to NaN (a text that is not a number) switches
    a length rule off: every string passes. *)
Theorem length_rules_disabled (s : string) (bound : value) :
  ToBoolean bound = false \/ ToNumber bound = ret NaN ->
  hasMinLength (VStr s) bound = ret true
  /\ hasMaxLength (VStr s) bound = ret true.
Proof.
  rewrite hasMinLength_string, hasMaxLength_string.
  intros [-> | Hnan]; [now split|].
  rewrite Hnan. destruct (ToBoolean bound); split; reflexivity.
Qed.

Lemma length_rules_disabled_witness :
  hasMinLength (VStr "abc") (VStr "many") = ret true
  /\ hasMaxLength (VStr "abc") (VStr "many") = ret true.
Proof.
  apply (length_rules_disabled "abc" (VStr "many")). right. reflexivity.
Defined.

(** X4.  Whatever the bound, a length rule logs exactly when the input
    is not a string, and then logs the one diagnostic. *)
Theorem length_rules_log (input bound : value) :
  fst (hasMinLength input bound)
    = (if typeof input =? "string" then [] else [non_string_diagnostic])
  /\ fst (hasMaxLength input bound)
    = (if typeof input =? "string" then [] else [non_string_diagnostic]).
Proof.
  destruct (typeof input =? "string") eqn:E.
  - apply String.eqb_eq, typeof_string in E as [s ->].
    rewrite hasMinLength_string, hasMaxLength_string.
    destruct (ToBoolean bound); [|now split].
    rewrite !fst_bind, ToNumber_log. now destruct (snd (ToNumber bound)).
  - unfold hasMinLength, hasMaxLength. rewrite E. now split.
Qed.

(** ** The matcher finds only what the pattern allows *)

Section Soundness.
Variables icase mline : bool.

Lemma more_sound r greedy k (Hr : sound icase mline (run icase mline r) r) :
  forall fuel left p e,
    more (run icase mline r) greedy k fuel left p = Some e ->
    exists q, matches icase mline (ReRepeat 0 left greedy r) p q
              /\ k q = Some e.
Proof.
  induction fuel as [| fuel IH]; intros left p e; simpl; [discriminate|].
  set (again := match left with
                | Some 0 => None
                | _ => run icase mline r p _
                end).
  assert (Hagain : again = Some e ->
            exists q, matches icase mline (ReRepeat 0 left greedy r) p q
                      /\ k q = Some e).
  { unfold again. intros Ha.
    assert (Hleft : left <> Some 0)
      by (destruct left as [[| n] |]; [discriminate Ha | discriminate ..]).
    assert (Hrun : run icase mline r p
              (fun p' => if (remaining p' <? remaining p)%nat
                         then more (run icase mline r) greedy k fuel
                                (option_map pred left) p'
                         else None) = Some e)
      by (destruct left as [[| n] |]; [discriminate | exact Ha | exact Ha]).
    apply Hr in Hrun as [p' [Hm Hk]].
    destruct (remaining p' <? remaining p)%nat; [|discriminate].
    apply IH in Hk as [q [Hq Hk]].
    exists q. split; [|exact Hk].
    apply (matches_repeat_more icase mline 0 left greedy r p p' q);
      [now right | exact Hm | exact Hq]. }
  assert (Hstop : k p = Some e ->
            exists q, matches icase mline (ReRepeat 0 left greedy r) p q
                      /\ k q = Some e).
  { intros Hk. exists p. split; [constructor | exact Hk]. }
  destruct greedy.
  - destruct again as [e'|]; [intros [= <-]; now apply Hagain | exact Hstop].
  - destruct (k p) as [e'|]; [intros [= <-]; now apply Hstop | exact Hagain].
Qed.

Lemma required_sound r greedy k (Hr : sound icase mline (run icase mline r) r) :
  forall n max K p e,
    (forall q e', K q = Some e' ->
       exists s, matches icase mline
                   (ReRepeat 0 (option_map (fun m => m - n) max) greedy r) q s
                 /\ k s = Some e') ->
    required (run icase mline r) n K p = Some e ->
    exists s, matches icase mline (ReRepeat n max greedy r) p s
              /\ k s = Some e.
Proof.
  induction n as [| n IH]; intros max K p e HK; simpl.
  - intros Hp. apply HK in Hp as [s [Hs Hk]]. exists s. split; [|exact Hk].
    replace (option_map (fun m => m - 0) max) with max in Hs; [exact Hs|].
    destruct max; simpl; [now rewrite Nat.sub_0_r | reflexivity].
  - intros Hp. apply Hr in Hp as [p' [Hm Hreq]].
    apply (IH (option_map pred max)) in Hreq as [s [Hs Hk]].
    + exists s. split; [|exact Hk].
      apply (matches_repeat_more icase mline (S n) max greedy r p p' s);
        [left; lia | exact Hm | exact Hs].
    + intros q e' Hq. apply HK in Hq as [s [Hs Hk]]. exists s.
      split; [|exact Hk].
      replace (option_map (fun m => m - n) (option_map pred max))
        with (option_map (fun m => m - S n) max); [exact Hs|].
      destruct max; simpl; [f_equal; lia | reflexivity].
Qed.

(** the matcher only finds what the pattern allows *)
Lemma run_sound (r : regex) : sound icase mline (run icase mline r) r.
Proof.
  unfold sound.
  induction r as [ | c | | negated ranges | r1 IH1 r2 IH2 | r1 IH1 r2 IH2
                   | min max greedy r1 IH1 | r1 IH1 | | ];
    intros p k e; cbn [run].
  - intros Hk. exists p. split; [constructor | exact Hk].
  - destruct p as [prev [| x rest]]; unfold advance; simpl; [discriminate|].
    destruct (same_char icase c x) eqn:E; [|discriminate].
    intros Hk. exists (Some x, rest). split; [now constructor | exact Hk].
  - destruct p as [prev [| x rest]]; unfold advance; simpl; [discriminate|].
    destruct (is_line_terminator x) eqn:E; [discriminate|].
    intros Hk. exists (Some x, rest). split; [now constructor | exact Hk].
  - destruct p as [prev [| x rest]]; unfold advance; simpl; [discriminate|].
    destruct (in_class icase negated ranges x) eqn:E; [|discriminate].
    intros Hk. exists (Some x, rest). split; [now constructor | exact Hk].
  - intros H1. apply IH1 in H1 as [q [Hq H2]]. apply IH2 in H2 as [s [Hs Hk]].
    exists s. split; [now apply matches_seq with q | exact Hk].
  - destruct (run icase mline r1 p k) as [e1|] eqn:E1.
    + intros [= <-]. apply IH1 in E1 as [q [Hq Hk]].
      exists q. split; [now apply matches_alt_l | exact Hk].
    + intros H2. apply IH2 in H2 as [q [Hq Hk]].
      exists q. split; [now apply matches_alt_r | exact Hk].
  - apply (required_sound r1 greedy k IH1). intros q e'.
    apply more_sound. exact IH1.
  - intros H1. apply IH1 in H1 as [q [Hq Hk]].
    exists q. split; [now constructor | exact Hk].
  - destruct (at_line_start mline p) eqn:E; [|discriminate].
    intros Hk. exists p. split; [now constructor | exact Hk].
  - destruct (at_line_end mline p) eqn:E; [|discriminate].
    intros Hk. exists p. split; [now constructor | exact Hk].
Qed.
End Soundness.

Lemma all_chars_complete (x : ascii) : In x all_chars.
Proof.
  unfold all_chars. rewrite <- (ascii_nat_embedding x). apply in_map.
  apply in_seq. pose proof (nat_ascii_bounded x). lia.
Qed.

Lemma forall_chars (P : ascii -> bool) (x : ascii) :
  forallb P all_chars = true -> P x = true.
Proof. intros HP. eapply forallb_forall in HP; [exact HP | apply all_chars_complete]. Qed.

Lemma string_forall_app ok (a b : string) :
  string_forall ok (a ++ b) = string_forall ok a && string_forall ok b.
Proof.
  unfold string_forall. induction a as [| c a IH]; simpl; [reflexivity|].
  now rewrite IH, andb_assoc.
Qed.

Lemma append_assoc (a b c : string) : (a ++ b) ++ c = a ++ b ++ c.
Proof. induction a; simpl; congruence. Qed.

Lemma contains_app_l c (a b : string) : contains c a -> contains c (a ++ b).
Proof.
  intros [u [v ->]]. exists u, (v ++ b). now rewrite append_assoc.
Qed.

Lemma contains_app_r c (a b : string) : contains c b -> contains c (a ++ b).
Proof.
  intros [u [v ->]]. exists (a ++ u), v. now rewrite append_assoc.
Qed.

(** what a match consumes: at least [min_length] characters, all of them
    within any alphabet that holds the atoms of the pattern, and among
    them every character the pattern must contain *)
Lemma matches_consumed icase mline (r : regex) (p q : position) :
  matches icase mline r p q ->
  exists w, snd p = w ++ snd q
    /\ min_length r <= String.length w
    /\ (forall ok, atoms_within icase ok r = true -> string_forall ok w = true)
    /\ (forall c, must_contain icase c r = true -> contains c w).
Proof.
  induction 1 as [ p | c prev x rest Hx | prev x rest Hx
                 | negated ranges prev x rest Hx
                 | r1 r2 p q s _ [w1 [E1 [L1 [A1 C1]]]] _ [w2 [E2 [L2 [A2 C2]]]]
                 | r1 r2 p q _ [w [E [L [A C]]]]
                 | r1 r2 p q _ [w [E [L [A C]]]]
                 | r p q _ [w [E [L [A C]]]]
                 | p Hp | p Hp
                 | max greedy r p
                 | min max greedy r p q s _ _ [w1 [E1 [L1 [A1 C1]]]]
                     _ [w2 [E2 [L2 [A2 C2]]]] ].
  - exists "". cbn [atoms_within must_contain min_length snd fst append String.length]. repeat split; auto; discriminate.
  - exists (String x ""). cbn [atoms_within must_contain min_length snd fst append String.length]. repeat split; auto.
    + intros ok Hok. apply forall_chars with (x := x) in Hok.
      rewrite Hx in Hok. simpl in Hok. unfold string_forall. simpl. now rewrite Hok.
    + intros c' Hc. apply forall_chars with (x := x) in Hc.
      rewrite Hx in Hc. simpl implb in Hc. apply Ascii.eqb_eq in Hc as ->.
      now exists "", "".
  - exists (String x ""). cbn [atoms_within must_contain min_length snd fst append String.length]. repeat split; auto; [|discriminate].
    intros ok Hok. apply forall_chars with (x := x) in Hok.
    rewrite Hx in Hok. simpl in Hok. unfold string_forall. simpl. now rewrite Hok.
  - exists (String x ""). cbn [atoms_within must_contain min_length snd fst append String.length]. repeat split; auto; [|discriminate].
    intros ok Hok. apply forall_chars with (x := x) in Hok.
    rewrite Hx in Hok. simpl in Hok. unfold string_forall. simpl. now rewrite Hok.
  - exists (w1 ++ w2). rewrite E1, E2, append_assoc. split; [reflexivity|].
    split; [rewrite append_length; cbn [atoms_within must_contain min_length snd fst append String.length]; lia|]. split.
    + intros ok Hok. cbn [atoms_within must_contain min_length snd fst append String.length] in Hok. apply andb_prop in Hok as [H1 H2].
      now rewrite string_forall_app, A1, A2.
    + intros c Hc. cbn [atoms_within must_contain min_length snd fst append String.length] in Hc. apply orb_prop in Hc as [Hc | Hc].
      * apply contains_app_l. now apply C1.
      * apply contains_app_r. now apply C2.
  - exists w. split; [exact E|]. split; [cbn [atoms_within must_contain min_length snd fst append String.length]; lia|]. split.
    + intros ok Hok. cbn [atoms_within must_contain min_length snd fst append String.length] in Hok. apply andb_prop in Hok as [H1 _]. now apply A.
    + intros c Hc. cbn [atoms_within must_contain min_length snd fst append String.length] in Hc. apply andb_prop in Hc as [H1 _]. now apply C.
  - exists w. split; [exact E|]. split; [cbn [atoms_within must_contain min_length snd fst append String.length]; lia|]. split.
    + intros ok Hok. cbn [atoms_within must_contain min_length snd fst append String.length] in Hok. apply andb_prop in Hok as [_ H2]. now apply A.
    + intros c Hc. cbn [atoms_within must_contain min_length snd fst append String.length] in Hc. apply andb_prop in Hc as [_ H2]. now apply C.
  - exists w. now repeat split.
  - exists "". cbn [atoms_within must_contain min_length snd fst append String.length]. repeat split; auto; discriminate.
  - exists "". cbn [atoms_within must_contain min_length snd fst append String.length]. repeat split; auto; discriminate.
  - exists "". cbn [atoms_within must_contain min_length snd fst append String.length]. repeat split; auto; discriminate.
  - exists (w1 ++ w2). rewrite E1, E2, append_assoc. split; [reflexivity|].
    split; [|split].
    + rewrite append_length. cbn [atoms_within must_contain min_length snd fst append String.length] in *. destruct min; simpl pred in *; lia.
    + intros ok Hok. cbn [atoms_within must_contain min_length snd fst append String.length] in Hok. now rewrite string_forall_app, A1, A2.
    + intros c Hc. cbn [atoms_within must_contain min_length snd fst append String.length] in Hc. apply andb_prop in Hc as [_ Hc].
      apply contains_app_l. now apply C1.
Qed.

(** a repetition of an atom that consumes one character consumes no more
    characters than its bounds allow *)
Lemma matches_repeat_bound icase mline (r : regex) :
  (forall p q, matches icase mline r p q -> remaining p = S (remaining q)) ->
  forall min max greedy p q,
    matches icase mline (ReRepeat min (Some max) greedy r) p q ->
    remaining p <= remaining q + Nat.max min max.
Proof.
  intros Hatom min max greedy p q Hm.
  remember (ReRepeat min (Some max) greedy r) as rr eqn:Err.
  revert min max Err.
  induction Hm as [ | | | | | | | | | | max' greedy' r' p
                  | min' max' greedy' r' p q s Hturn Hone _ Hrest IH ];
    intros min max Err; try discriminate Err.
  - lia.
  - injection Err as -> -> -> ->. apply Hatom in Hone.
    specialize (IH (pred min) (pred max) eq_refl).
    assert (Hmax : 0 < min \/ max <> 0)
      by (destruct Hturn as [Hmin | Hmax]; [now left | right; congruence]).
    lia.
Qed.

Example bound_is_respected :
  ~ exists e, matches false false (ReRepeat 1 (Some 2) true (ReChar "a"))
                (None, "aaaa") e /\ snd e = "".
Proof.
  intros [e [Hm He]].
  apply matches_repeat_bound in Hm.
  - unfold remaining in Hm. rewrite He in Hm. simpl in Hm. lia.
  - intros p q Hone. inversion Hone; subst. reflexivity.
Qed.

Lemma search_at_start icase mline (r : regex) prev (s : string) e :
  search icase mline r prev s = Some (s, e) ->
  run icase mline r (prev, s) Some = Some e.
Proof.
  destruct s as [| c s]; simpl.
  - destruct (run icase mline r (prev, "") Some); [now intros [= ->] | discriminate].
  - destruct (run icase mline r (prev, String c s) Some);
      [now intros [= ->]|].
    intros Hs. apply search_suffix in Hs as [before Hs].
    apply (f_equal String.length) in Hs. rewrite append_length in Hs.
    simpl in Hs. lia.
Qed.

Lemma substring_prefix (w r : string) :
  substring 0 (String.length w) (w ++ r) = w.
Proof.
  induction w as [| c w IH]; simpl; [now destruct r | now rewrite IH].
Qed.

Section Accepted.
Context `{Host}.

Lemma passing_input_matches (s : string) (a : addr) (rx : RegExp) :
  matchesRegularExpression (VStr s) (VRegExp a rx) = ret true ->
  exists e, matches (ignoreCase rx) (multiline rx) (pattern rx) (None, s) e
            /\ snd e = "".
Proof.
  rewrite matchesRegularExpression_RegExp.
  destruct (RegExp_search rx None s) as [[start e]|] eqn:Hs; [|discriminate].
  intros [= E]. apply String.eqb_eq in E.
  pose proof (whole_match_starts_at_0 rx s start e Hs E) as ->.
  apply search_at_start, run_sound in Hs as [q [Hq [= ->]]].
  exists e. split; [exact Hq|].
  apply matches_consumed in Hq as [w [Hw _]]. simpl in Hw.
  unfold matched, remaining in E. rewrite Hw in E at 1 2.
  rewrite append_length, Nat.add_sub, substring_prefix in E.
  rewrite E in Hw. apply (f_equal String.length) in Hw.
  rewrite append_length in Hw. destruct (snd e); [reflexivity | simpl in Hw; lia].
Qed.

(** X7.  A passing input is, from its first to its last character, one
    way through the pattern: the rule acts as if the pattern were anchored
    at both ends. *)
Theorem matchesRegularExpression_whole (s : string) (a : addr) (rx : RegExp) :
  matchesRegularExpression (VStr s) (VRegExp a rx) = ret true ->
  exists e, matches (ignoreCase rx) (multiline rx) (pattern rx) (None, s) e
            /\ snd e = "".
Proof. apply passing_input_matches. Qed.

Lemma accepted_text (s : string) (a : addr) (rx : RegExp) :
  matchesRegularExpression (VStr s) (VRegExp a rx) = ret true ->
  min_length (pattern rx) <= String.length s
  /\ (forall ok, atoms_within (ignoreCase rx) ok (pattern rx) = true ->
                 string_forall ok s = true)
  /\ (forall c, must_contain (ignoreCase rx) c (pattern rx) = true ->
                contains c s).
Proof.
  intros Hm. apply passing_input_matches in Hm as [e [Hm He]].
  apply matches_consumed in Hm as [w [Hw Hrest]]. simpl in Hw.
  rewrite He in Hw. replace (w ++ "") with w in Hw; [now subst w|].
  clear. induction w; simpl; congruence.
Qed.

(** X9.  An accepted URL has at least four characters, one of them a
    dot, and is written with letters, digits and the punctuation of
    [url_char] only: no blank, no control character, no comma, no quote
    and no opening angle bracket. *)
Theorem isUrl_accepts_only (s : string) :
  isUrl (VStr s) = ret true ->
  string_forall url_char s = true /\ contains "." s /\ 4 <= String.length s.
Proof.
  intros Hm. apply (accepted_text s 1 URL_REGEX) in Hm as [Hlen [Hok Hc]].
  split; [|split].
  - apply Hok. vm_compute. reflexivity.
  - apply Hc. vm_compute. reflexivity.
  - exact Hlen.
Qed.

(** X8.  An accepted address has the shape local@domain: a non-empty
    local part of letters, digits and [_ - . +], one at sign, and a domain
    of at least four letters, digits, hyphens and dots with a dot in it. *)
Theorem isEmail_shape (s : string) :
  isEmail (VStr s) = ret true ->
  exists local domain,
    s = local ++ String "@" domain
    /\ local <> ""
    /\ string_forall local_char local = true
    /\ string_forall domain_char domain = true
    /\ contains "." domain
    /\ 4 <= String.length domain.
Proof.
  intros Hm.
  apply (passing_input_matches s 0 EMAIL_REGEX) in Hm as [e [Hm He]].
  change (pattern EMAIL_REGEX)
    with (ReSeq ReBol (ReSeq email_local (ReSeq (ReChar "@") email_domain)))
    in Hm.
  simpl ignoreCase in Hm. simpl multiline in Hm.
  inversion Hm as [ | | | | r1 r2 p0 p1 p4 Hbol Hrest | | | | | | | ]; subst.
  inversion Hbol; subst.
  inversion Hrest as [ | | | | r1 r2 p0 p2 p5 Hlocal Hrest' | | | | | | | ]; subst.
  inversion Hrest' as [ | | | | r1 r2 p0 p3 p5 Hat Hdomain | | | | | | | ]; subst.
  inversion Hat as [ | c prev x rest Hx | | | | | | | | | | ]; subst.
  assert (x = "@"%char) as ->.
  { assert (Hall : forallb (fun y => implb (same_char true "@" y)
                                       (Ascii.eqb y "@")) all_chars = true)
      by (vm_compute; reflexivity).
    apply forall_chars with (x := x) in Hall. rewrite Hx in Hall.
    now apply Ascii.eqb_eq in Hall. }
  apply matches_consumed in Hlocal as [local [Hl [Llen [Lok _]]]].
  apply matches_consumed in Hdomain as [domain [Hd [Dlen [Dok Dc]]]].
  simpl in Hl, Hd. rewrite He in Hd.
  assert (Hdom : domain ++ "" = domain)
    by (clear; induction domain; simpl; congruence).
  rewrite Hdom in Hd. rewrite Hd in Hl.
  exists local, domain. split; [exact Hl|].
  split; [intros ->; vm_compute in Llen; lia|].
  split; [apply Lok; vm_compute; reflexivity|].
  split; [apply Dok; vm_compute; reflexivity|].
  split; [apply Dc; vm_compute; reflexivity|].
  exact Dlen.
Qed.
End Accepted.

Lemma matchesRegularExpression_whole_witness :
  exists e, matches false false (lit "abc") (None, "abc") e /\ snd e = "".
Proof.
  apply (@matchesRegularExpression_whole example_host "abc" 0 abc_pattern).
  vm_compute. reflexivity.
Defined.

Lemma isUrl_accepts_only_witness :
  string_forall url_char "http://example.com/a?b=1" = true
  /\ contains "." "http://example.com/a?b=1"
  /\ 4 <= String.length "http://example.com/a?b=1".
Proof.
  apply (@isUrl_accepts_only example_host "http://example.com/a?b=1").
  vm_compute. reflexivity.
Defined.

Lemma isEmail_shape_witness :
  exists local domain,
    "a@b.com" = local ++ String "@" domain
    /\ local <> ""
    /\ string_forall local_char local = true
    /\ string_forall domain_char domain = true
    /\ contains "." domain
    /\ 4 <= String.length domain.
Proof.
  apply (@isEmail_shape example_host "a@b.com"). vm_compute. reflexivity.
Defined.

(** ** isNumeric on values that are not text *)

Lemma binary64_not_NaN (q : Q) : number_isNaN (binary64 q) = false.
Proof.
  unfold binary64. destruct (Qnum q); try reflexivity;
    match goal with |- context [if ?b then _ else _] => destruct b end;
    reflexivity.
Qed.

Lemma leading_digit_app (a b : string) :
  leading_digit a -> leading_digit (a ++ b).
Proof. intros [c [r [-> Hc]]]. now exists c, (r ++ b). Qed.

Lemma substring_leading (n : nat) (s : string) :
  leading_digit s -> leading_digit (substring 0 (S n) s).
Proof. intros [c [r [-> Hc]]]. simpl. now eexists; eexists. Qed.

Lemma positive_to_string_leading (q : Q) : leading_digit (positive_to_string q).
Proof.
  unfold positive_to_string.
  destruct (shortest_digits 16 (Qred q) (Qfloor_log10 q + 1) 1) as [[s n] k].
  pose proof (Z_to_string_leading s) as Hds.
  destruct ((k <=? n)%Z && (n <=? 21)%Z); [now apply leading_digit_app|].
  destruct ((0 <? n)%Z && (n <=? 21)%Z) eqn:E.
  - apply andb_prop in E as [E _]. apply Z.ltb_lt in E.
    destruct (Z.to_nat n) as [| m] eqn:En; [lia|].
    now apply leading_digit_app, substring_leading.
  - destruct ((-6 <? n)%Z && (n <=? 0)%Z).
    + exists "0"%char. eexists. split; reflexivity.
    + destruct (k =? 1)%Z; [now apply leading_digit_app|].
      now apply leading_digit_app, substring_leading.
Qed.

Lemma unsigned_decimal_digits (s : string) :
  fst (span is_digit s) <> "" ->
  exists x r, unsigned_decimal s = Some (x, r) /\ number_isNaN x = false.
Proof.
  intros Hip. unfold unsigned_decimal.
  destruct (prefix "Infinity" s); [now eexists; eexists|].
  destruct (span is_digit s) as [ip r1]. simpl in Hip.
  destruct ip as [| d ip]; [contradiction|].
  destruct r1 as [| c2 r2].
  - destruct (exponent_part "") as [e r]. eexists; eexists.
    split; [reflexivity | apply binary64_not_NaN].
  - destruct c2 as [[] [] [] [] [] [] [] []];
      cbv iota;
      try (destruct (exponent_part (String _ r2)) as [e r];
           eexists; eexists; split; [reflexivity | apply binary64_not_NaN]).
    destruct (span is_digit r2) as [fp r3].
    destruct (exponent_part r3) as [e r]. eexists; eexists.
    split; [reflexivity | apply binary64_not_NaN].
Qed.

Lemma span_leading (s : string) :
  leading_digit s -> fst (span is_digit s) <> "".
Proof.
  intros [c [r [-> Hc]]]. simpl. rewrite Hc.
  destruct (span is_digit r). simpl. discriminate.
Qed.

Lemma signed_decimal_leading (s : string) :
  leading_digit s -> signed_decimal s = unsigned_decimal s.
Proof.
  intros [c [r [-> Hc]]].
  destruct c as [[] [] [] [] [] [] [] []]; try reflexivity;
    vm_compute in Hc; discriminate Hc.
Qed.

Lemma trim_left_leading (s : string) : leading_digit s -> trim_left s = s.
Proof.
  intros [c [r [-> Hc]]]. unfold trim_left. simpl.
  replace (is_space c) with false; [reflexivity|].
  unfold is_digit in Hc. unfold is_space.
  apply andb_prop in Hc as [H1 H2]. apply Nat.leb_le in H1, H2.
  symmetry. apply orb_false_intro; [apply orb_false_intro|].
  - apply andb_false_intro2. apply Nat.leb_gt. lia.
  - apply Nat.eqb_neq. lia.
  - apply Nat.eqb_neq. lia.
Qed.

Lemma parseFloat_string_leading (s : string) :
  leading_digit s -> number_isNaN (parseFloat_string s) = false.
Proof.
  intros Hs. unfold parseFloat_string.
  rewrite (trim_left_leading s Hs), (signed_decimal_leading s Hs).
  destruct (unsigned_decimal_digits s (span_leading s Hs)) as [x [r [-> Hx]]].
  exact Hx.
Qed.

Lemma parseFloat_string_negative (s : string) :
  leading_digit s -> number_isNaN (parseFloat_string ("-" ++ s)) = false.
Proof.
  intros Hs. unfold parseFloat_string.
  change (trim_left ("-" ++ s)) with (String "-" s).
  change (signed_decimal (String "-" s))
    with (match unsigned_decimal s with
          | Some (x, r) => Some (negate x, r)
          | None => None
          end).
  destruct (unsigned_decimal_digits s (span_leading s Hs)) as [x [r [-> Hx]]].
  now destruct x.
Qed.

Lemma number_to_string_parses (q : Q) :
  number_isNaN (parseFloat_string (number_to_string (Finite q))) = false.
Proof.
  unfold number_to_string. destruct (Qnum q).
  - reflexivity.
  - apply parseFloat_string_leading, positive_to_string_leading.
  - apply parseFloat_string_negative, positive_to_string_leading.
Qed.

(** X10.  Given a number, the rule passes exactly when the number is
    finite: the text of a finite number always reads back as a number.
    Given undefined, null, a boolean or a RegExp it fails; given a plain
    object it fails too, or throws when the object hides [toString]. *)
Theorem isNumeric_of_number (n : number) (b : bool) (a : addr)
    (rx : RegExp) (props : list (string * value)) :
  isNumeric (VNum n) = ret (number_isFinite n)
  /\ isNumeric VUndefined = ret false
  /\ isNumeric VNull = ret false
  /\ isNumeric (VBool b) = ret false
  /\ isNumeric (VRegExp a rx) = ret false
  /\ isNumeric (VObject a props)
     = (if has_key "toString" props then throw TypeError else ret false).
Proof.
  split;
    [|repeat split; try destruct b; try reflexivity;
      unfold isNumeric, parseFloat; simpl ToString;
      now destruct (has_key "toString" props)].
  assert (E : isNumeric (VNum n) =
              ret (negb (number_isNaN (parseFloat_string (number_to_string n)))
                   && number_isFinite n)).
  { unfold isNumeric, parseFloat, isNaN, isFinite, ToNumber, ToString, bind, ret.
    cbn [fst snd app].
    now destruct (number_isNaN (parseFloat_string (number_to_string n))). }
  rewrite E. destruct n as [| neg | q].
  - reflexivity.
  - now rewrite andb_false_r.
  - now rewrite number_to_string_parses.
Qed.

(** ** The pattern rules and confirmEmail *)

Section MoreRules.
Context `{Host}.

(** X5.  On an input that is not a string the three pattern rules do
    not fail, they throw: the input has no [match] method.  [validate]
    does not catch it, so asking for one of them on such an input makes
    [validate] throw a TypeError. *)
Theorem pattern_rules_throw_on_non_strings (input regex returnSpecifics : value) :
  typeof input <> "string" ->
  matchesRegularExpression input regex = throw TypeError
  /\ isEmail input = throw TypeError
  /\ isUrl input = throw TypeError
  /\ validate input [("isEmail", regex)] returnSpecifics = throw TypeError
  /\ validate input [("isUrl", regex)] returnSpecifics = throw TypeError
  /\ validate input [("matchesRegularExpression", regex)] returnSpecifics
     = throw TypeError.
Proof.
  intros Htype.
  destruct input as [ | | b | n | s | a props | a elems | a rx ];
    now repeat split.
Qed.

(** X6.  The global flag of the pattern does not change the verdict:
    element 0 of the matches is the leftmost match either way. *)
Theorem global_flag_is_irrelevant (s : string) (a : addr) (rx : RegExp)
    (g : bool) :
  matchesRegularExpression (VStr s) (VRegExp a (with_global g rx))
  = matchesRegularExpression (VStr s) (VRegExp a rx).
Proof. now rewrite !matchesRegularExpression_RegExp. Qed.

(** X11.  Against a field that holds a text, the rule passes on that very
    text and on nothing else; in particular no value of another type is
    converted to it. *)
Theorem confirmEmail_is_strict (input selector : value) (original : string) :
  Sequencer_find selector = Field (VStr original) ->
  (confirmEmail input selector = ret true <-> input = VStr original)
  /\ (confirmEmail input selector = ret false <-> input <> VStr original).
Proof.
  intros Hfind. unfold confirmEmail. rewrite Hfind.
  assert (Heq : strict_eq input (VStr original) = true <-> input = VStr original).
  { destruct input; simpl; split; try discriminate.
    - intros E. apply String.eqb_eq in E. now subst.
    - intros [= ->]. apply String.eqb_refl. }
  destruct (strict_eq input (VStr original)) eqn:E; unfold ret.
  - assert (Hin : input = VStr original) by now apply Heq.
    split; split; intros; try congruence; try discriminate.
  - assert (Hin : input <> VStr original)
      by (intros Hin; apply Heq in Hin; discriminate).
    split; split; intros; try congruence; try discriminate.
Qed.
End MoreRules.

Lemma pattern_rules_throw_on_non_strings_witness :
  @isEmail example_host (VNum (of_Z 42)) = throw TypeError
  /\ @validate example_host (VNum (of_Z 42)) [("isEmail", VBool true)]
       (VBool true) = throw TypeError.
Proof.
  assert (Hnum : typeof (VNum (of_Z 42)) <> "string") by discriminate.
  pose proof (@pattern_rules_throw_on_non_strings example_host
                (VNum (of_Z 42)) (VBool true) (VBool true) Hnum) as Hall.
  split; apply Hall.
Defined.

Lemma confirmEmail_is_strict_witness :
  @confirmEmail example_host (VStr "a@b.com") (VStr "#ugc_submission_email")
    = ret true <-> VStr "a@b.com" = VStr "a@b.com".
Proof.
  apply (@confirmEmail_is_strict example_host (VStr "a@b.com")
           (VStr "#ugc_submission_email") "a@b.com").
  reflexivity.
Defined.

(** ** More on validate *)

Section MoreAggregator.
Context `{Host}.

Lemma each_key_app {S : Type} (a b : list (string * value))
    (f : value -> string -> S -> M S) (s : S) :
  each_key (a ++ b)%list f s
  = bind (each_key a f s) (fun s' => each_key b f s').
Proof.
  revert s. induction a as [| [key val] a IH]; intros s;
    cbn [each_key app].
  - now rewrite bind_ret_l.
  - rewrite bind_assoc. apply bind_ext. intros s'. apply IH.
Qed.

Lemma no_length_app (a b : list (string * value)) :
  ~ In "length" (map fst (a ++ b)) <->
  ~ In "length" (map fst a) /\ ~ In "length" (map fst b).
Proof. rewrite map_app, in_app_iff. tauto. Qed.

Lemma check_rule_shift (input ruleVal : value) (ruleType : string)
    (failures : list string) :
  check_rule input ruleVal ruleType failures =
    (fst (check_rule input ruleVal ruleType []),
     map_completion (app failures) (snd (check_rule input ruleVal ruleType []))).
Proof.
  unfold check_rule. destruct (validators_get ruleType) as [f|];
    cbv beta zeta iota.
  - rewrite !bind_ret_l. destruct (f input ruleVal) as [l [outcome | e]];
      simpl; [|reflexivity].
    destruct (strict_eq outcome (VBool false)); simpl;
      now rewrite ?app_nil_r.
  - reflexivity.
Qed.

Lemma each_key_shift (input : value) (options : list (string * value)) :
  forall failures,
    each_key options (check_rule input) failures =
      (fst (each_key options (check_rule input) []),
       map_completion (app failures)
         (snd (each_key options (check_rule input) []))).
Proof.
  induction options as [| [key val] rest IH]; intros failures; simpl.
  - unfold ret. simpl. now rewrite app_nil_r.
  - rewrite (check_rule_shift input val key failures).
    destruct (check_rule input val key []) as [l [added | e]]; simpl;
      [|reflexivity].
    rewrite (IH (failures ++ added)%list), (IH added).
    destruct (each_key rest (check_rule input) []) as [l' [more | e]]; simpl;
      [now rewrite app_assoc | reflexivity].
Qed.

Lemma check_rule_log (input ruleVal : value) (ruleType : string)
    (failures : list string) :
  (exists v, snd (invoke input (ruleType, ruleVal)) = Return v) ->
  fst (check_rule input ruleVal ruleType failures)
    = fst (invoke input (ruleType, ruleVal)).
Proof.
  unfold check_rule, invoke. simpl fst. simpl snd.
  destruct (validators_get ruleType) as [f|]; cbv beta zeta iota;
    [intros _ | now intros [v Hv]].
  rewrite bind_ret_l, fst_bind.
  destruct (f input ruleVal) as [l [outcome | e]]; simpl; [|reflexivity].
  destruct (strict_eq outcome (VBool false)); simpl; apply app_nil_r.
Qed.

Lemma validate_log (input : value) (options : list (string * value))
    (returnSpecifics : value) :
  fst (validate input options returnSpecifics)
    = fst (each options (check_rule input) []).
Proof.
  unfold validate. rewrite fst_bind.
  destruct (snd (each options (check_rule input) [])) as [failures | e];
    [|reflexivity].
  destruct (0 <? List.length failures)%nat;
    [destruct (strict_eq returnSpecifics (VBool true))|];
    simpl; apply app_nil_r.
Qed.

(** the failures collected, read off a result for [returnSpecifics]
    exactly true *)
Lemma validate_failures (input : value) (options : list (string * value))
    (r : result) :
  snd (validate input options (VBool true)) = Return r <->
  snd (each options (check_rule input) []) = Return (failures_of r)
  /\ r = match failures_of r with [] => Boolean true | l => Failures l end.
Proof.
  rewrite validate_outcome. simpl strict_eq.
  destruct (snd (each options (check_rule input) [])) as [[| k l] | e]; split.
  - intros [= <-]. now split.
  - intros [[= E] ->]. now rewrite <- E.
  - intros [= <-]. now split.
  - intros [[= E] ->]. now rewrite <- E.
  - discriminate.
  - now intros [[=] _].
Qed.

(** X12.  In options without a key [length], the first call that throws
    ends the run: [validate] throws the same error, and the rules after
    it have no influence on the log or on the outcome. *)
Theorem validate_aborts_at_first_throw (input returnSpecifics : value)
    (before after : list (string * value)) (rule : string * value) (e : exn) :
  ~ In "length" (map fst (before ++ rule :: after)) ->
  (forall r, In r before -> exists v, snd (invoke input r) = Return v) ->
  snd (invoke input rule) = Throw e ->
  snd (validate input (before ++ rule :: after) returnSpecifics) = Throw e
  /\ forall after',
       ~ In "length" (map fst after') ->
       validate input (before ++ rule :: after') returnSpecifics
       = validate input (before ++ rule :: after) returnSpecifics.
Proof.
  intros Hplain Hbefore Hthrow.
  assert (Hstep : forall rest failures,
            each_key (rule :: rest) (check_rule input) failures
            = (fst (check_rule input (snd rule) (fst rule) failures), Throw e)).
  { intros rest failures. destruct rule as [key val]. simpl.
    apply bind_throw. rewrite check_rule_outcome. simpl in Hthrow.
    now rewrite Hthrow. }
  assert (Heach : forall rest,
            ~ In "length" (map fst (before ++ rule :: rest)) ->
            each (before ++ rule :: rest) (check_rule input) []
            = bind (each_key before (check_rule input) [])
                (fun failures =>
                   (fst (check_rule input (snd rule) (fst rule) failures),
                    Throw e))).
  { intros rest Hrest. rewrite each_plain by (now apply no_length_plain).
    rewrite each_key_app. apply bind_ext. intros failures. apply Hstep. }
  split.
  - unfold validate. rewrite snd_bind, (Heach after Hplain), snd_bind.
    rewrite each_key_check_rule_returns by (now apply Forall_forall).
    reflexivity.
  - intros after' Hafter'. unfold validate.
    rewrite (Heach after Hplain), (Heach after'); [reflexivity|].
    apply no_length_app in Hplain as [Hb Hr]. apply no_length_app.
    split; [exact Hb|]. simpl in *. tauto.
Qed.

(** X13.  As long as the calls return there is no short-circuit: the log
    of [validate] is the log of every rule of the options, in their
    order, whether or not an earlier rule has failed. *)
Theorem validate_runs_all_rules (input returnSpecifics : value)
    (options : list (string * value)) :
  (forall r, In r options -> exists v, snd (invoke input r) = Return v) ->
  fst (validate input options returnSpecifics)
    = concat (map (fun r => fst (invoke input r)) options).
Proof.
  intros Hall. rewrite validate_log.
  rewrite each_plain
    by (apply (returning_options_plain input); now apply Forall_forall).
  revert Hall. generalize (@nil string).
  induction options as [| [key val] rest IH]; intros failures Hall;
    [reflexivity|].
  simpl each_key. rewrite fst_bind, check_rule_outcome.
  destruct (Hall (key, val) (or_introl eq_refl)) as [v Hv].
  rewrite Hv, check_rule_log by (now exists v). simpl. f_equal.
  apply IH. intros r Hr. apply Hall. now right.
Qed.

(** X14.  [returnSpecifics] only shapes the result: with any value other
    than true, [validate] logs the same, throws the same, passes the same,
    and answers false exactly where it would have listed failures. *)
Theorem returnSpecifics_only_shapes_the_result (input returnSpecifics : value)
    (options : list (string * value)) :
  returnSpecifics <> VBool true ->
  snd (validate input options returnSpecifics)
    = map_completion collapse (snd (validate input options (VBool true)))
  /\ fst (validate input options returnSpecifics)
     = fst (validate input options (VBool true)).
Proof.
  intros Hrs. rewrite !validate_log, !validate_outcome. split; [|reflexivity].
  assert (E : strict_eq returnSpecifics (VBool true) = false).
  { destruct (strict_eq returnSpecifics (VBool true)) eqn:E; [|reflexivity].
    now apply strict_eq_true in E. }
  rewrite E. simpl strict_eq.
  now destruct (snd (each options (check_rule input) [])) as [[| k l] | e].
Qed.

Lemma each_joined (input : value) (first second : list (string * value)) :
  ~ In "length" (map fst (first ++ second)) ->
  snd (each (first ++ second) (check_rule input) []) =
    match snd (each first (check_rule input) []) with
    | Return failures =>
        map_completion (app failures)
          (snd (each second (check_rule input) []))
    | Throw e => Throw e
    end.
Proof.
  intros Hplain. pose proof Hplain as [H1 H2]%no_length_app.
  rewrite !each_plain by (now apply no_length_plain).
  rewrite each_key_app, snd_bind.
  destruct (snd (each_key first (check_rule input) [])) as [failures | e];
    [|reflexivity].
  now rewrite each_key_shift.
Qed.

(** X15.  Two sets of options joined, none of them with a key [length],
    pass exactly when each of them passes. *)
Theorem validate_joined_passes (input returnSpecifics : value)
    (first second : list (string * value)) :
  ~ In "length" (map fst (first ++ second)) ->
  (snd (validate input (first ++ second) returnSpecifics)
     = Return (Boolean true)
   <-> snd (validate input first returnSpecifics) = Return (Boolean true)
       /\ snd (validate input second returnSpecifics) = Return (Boolean true)).
Proof.
  intros Hplain.
  assert (Hpass : forall options,
            snd (validate input options returnSpecifics) = Return (Boolean true)
            <-> snd (each options (check_rule input) []) = Return []).
  { intros options. rewrite validate_outcome.
    destruct (snd (each options (check_rule input) [])) as [[| k l] | e];
      [easy | | easy].
    destruct (strict_eq returnSpecifics (VBool true)); easy. }
  rewrite !Hpass, (each_joined input first second Hplain).
  destruct (snd (each first (check_rule input) [])) as [f1 | e];
    [|split; [discriminate | now intros [[=] _]]].
  destruct (snd (each second (check_rule input) [])) as [f2 | e]; simpl;
    [|split; [discriminate | now intros [_ [=]]]].
  split.
  - intros [= E]. apply app_eq_nil in E as [-> ->]. now split.
  - now intros [[= ->] [= ->]].
Qed.

(** X16.  With [returnSpecifics] exactly true, the failures of two sets
    of options joined, none of them with a key [length], are the failures
    of the first followed by those of the second. *)
Theorem validate_joined_failures (input : value)
    (first second : list (string * value)) (r1 r2 : result) :
  ~ In "length" (map fst (first ++ second)) ->
  snd (validate input first (VBool true)) = Return r1 ->
  snd (validate input second (VBool true)) = Return r2 ->
  snd (validate input (first ++ second) (VBool true))
    = Return match (failures_of r1 ++ failures_of r2)%list with
             | [] => Boolean true
             | failures => Failures failures
             end.
Proof.
  intros Hplain [E1 _]%validate_failures [E2 _]%validate_failures.
  apply validate_failures.
  rewrite (each_joined input first second Hplain), E1, E2. simpl.
  now destruct (failures_of r1 ++ failures_of r2)%list.
Qed.

(** X17.  A key that names a function of [Object.prototype] is not
    reported as unrecognized: the lookup in the registry finds the
    inherited function, [validate] calls it without logging, and the key
    is listed as a failure when the call returns false. *)
Theorem inherited_names_are_called (input ruleVal returnSpecifics : value)
    (ruleType : string) :
  In ruleType Object_prototype_functions ->
  validate input [(ruleType, ruleVal)] returnSpecifics =
    ([], map_completion
           (fun outcome =>
              if strict_eq outcome (VBool false)
              then if strict_eq returnSpecifics (VBool true)
                   then Failures [ruleType] else Boolean false
              else Boolean true)
           (Object_prototype_call ruleType input ruleVal)).
Proof.
  unfold Object_prototype_functions. simpl.
  intros [<- | [<- | [<- | [<- | [<- | [<- | [<- | []]]]]]]];
    unfold validate; rewrite each_plain by reflexivity;
    cbn [each_key]; unfold check_rule;
    match goal with
    | |- context [validators_get ?k] =>
        change (validators_get k)
          with (Some (fun i v => (@nil string, Object_prototype_call k i v)))
    end;
    cbv beta zeta iota;
    match goal with
    | |- context [Object_prototype_call ?k input ruleVal] =>
        destruct (Object_prototype_call k input ruleVal) as [outcome | e]
    end; simpl; try reflexivity;
    destruct (strict_eq outcome (VBool false)); simpl; try reflexivity;
    destruct (strict_eq returnSpecifics (VBool true)); reflexivity.
Qed.

(** X18.  An options object that underscore takes for an array, because
    its [length] is a number between 0 and MAX_ARRAY_INDEX, is not read
    as a set of rules: with no index below the length no rule is run and
    [validate] returns true; otherwise the walk starts at index 0, which
    names no rule, and [validate] logs that and throws. *)
Theorem validate_array_like_options (input returnSpecifics : value)
    (options : list (string * value)) (count : nat) :
  isArrayLike options = Some count ->
  validate input options returnSpecifics =
    match count with
    | O => ret (Boolean true)
    | Datatypes.S _ => ([not_recognized "0"], Throw TypeError)
    end.
Proof.
  intros Hlike. unfold validate.
  rewrite (each_array_like input options count [] Hlike).
  now destruct count.
Qed.
End MoreAggregator.

Lemma validate_aborts_at_first_throw_witness :
  snd (@validate example_host (VNum (of_Z 7))
         ([("isRequired", VBool true)] ++ ("isEmail", VBool true)
            :: [("hasMinLength", VNum (of_Z 1))])
         (VBool true)) = Throw TypeError.
Proof.
  apply (@validate_aborts_at_first_throw example_host (VNum (of_Z 7))
           (VBool true) [("isRequired", VBool true)]
           [("hasMinLength", VNum (of_Z 1))] ("isEmail", VBool true)
           TypeError).
  - simpl. intros [E | [E | [E | []]]]; discriminate E.
  - intros r [<- | []]. eexists. vm_compute. reflexivity.
  - vm_compute. reflexivity.
Defined.

Lemma validate_runs_all_rules_witness :
  fst (@validate example_host (VNum (of_Z 7))
         [("hasMinLength", VNum (of_Z 1)); ("hasMaxLength", VNum (of_Z 9))]
         (VBool true))
  = concat (map (fun r => fst (@invoke example_host (VNum (of_Z 7)) r))
              [("hasMinLength", VNum (of_Z 1));
               ("hasMaxLength", VNum (of_Z 9))]).
Proof.
  apply (@validate_runs_all_rules example_host).
  intros r [<- | [<- | []]]; eexists; vm_compute; reflexivity.
Defined.

Lemma returnSpecifics_only_shapes_the_result_witness :
  snd (@validate example_host (VStr "42")
         [("hasMinLength", VNum (of_Z 5))] VUndefined)
  = map_completion collapse
      (snd (@validate example_host (VStr "42")
              [("hasMinLength", VNum (of_Z 5))] (VBool true))).
Proof.
  apply (@returnSpecifics_only_shapes_the_result example_host (VStr "42")
           VUndefined [("hasMinLength", VNum (of_Z 5))]).
  discriminate.
Defined.

Lemma validate_joined_failures_witness :
  snd (@validate example_host (VStr "42")
         ([("hasMinLength", VNum (of_Z 5))] ++ [("isEmail", VBool true)])
         (VBool true))
  = Return (Failures ["hasMinLength"; "isEmail"]).
Proof.
  apply (@validate_joined_failures example_host (VStr "42")
           [("hasMinLength", VNum (of_Z 5))] [("isEmail", VBool true)]
           (Failures ["hasMinLength"]) (Failures ["isEmail"]));
    [simpl; intros [E | [E | []]]; discriminate E | ..];
    vm_compute; reflexivity.
Defined.

Lemma inherited_names_are_called_witness :
  @validate example_host (VStr "x") [("hasOwnProperty", VBool true)]
    (VBool true) = ret (Boolean true).
Proof.
  apply (@inherited_names_are_called example_host (VStr "x") (VBool true)
           (VBool true) "hasOwnProperty").
  simpl. auto 10.
Defined.

Lemma validate_joined_passes_witness :
  snd (@validate example_host (VStr "42")
         ([("isNumeric", VBool true)] ++ [("hasMaxLength", VNum (of_Z 5))])
         (VBool true)) = Return (Boolean true)
  <-> snd (@validate example_host (VStr "42") [("isNumeric", VBool true)]
             (VBool true)) = Return (Boolean true)
      /\ snd (@validate example_host (VStr "42")
                [("hasMaxLength", VNum (of_Z 5))] (VBool true))
         = Return (Boolean true).
Proof.
  apply (@validate_joined_passes example_host (VStr "42") (VBool true)
           [("isNumeric", VBool true)] [("hasMaxLength", VNum (of_Z 5))]).
  simpl. intros [E | [E | []]]; discriminate E.
Defined.

Lemma validate_array_like_options_witness :
  @validate example_host (VStr "")
    [("length", VNum (of_Z 0)); ("isRequired", VBool true)] (VBool true)
  = ret (Boolean true).
Proof.
  apply (@validate_array_like_options example_host (VStr "") (VBool true)
           [("length", VNum (of_Z 0)); ("isRequired", VBool true)] 0).
  vm_compute. reflexivity.
Defined.
